(** * Split JavaScript client

    A shallow embedding of the equal-to-set matcher, the split-changes
    data source, the public evaluation call and the GA-to-Split
    integration, and the properties established about them. *)

From stdpp Require Import gmap strings list pretty sorting.
From Stdlib Require Import ZArith Lia.

Local Open Scope string_scope.
Local Open Scope Z_scope.

(** ** JavaScript values and completions *)

Module JS.

(** Numbers of the model: the integers, printed in decimal, and the three
    non-finite values.  Fractions and negative zero are not represented,
    and the decimal digits are what JavaScript prints only up to 2^53 in
    magnitude (see [in_range] below). *)
Inductive number :=
| NaN
| Infinity (negative : bool)
| Int (z : Z).

(** Plain data: primitives, objects as ordered own data properties and
    arrays by content.  Functions, symbols, getters and prototype lookups
    are not represented. *)
#[warnings="-register-all"]
Inductive jsval :=
| JUndefined
| JNull
| JBool (b : bool)
| JNum (n : number)
| JStr (s : string)
| JObj (fields : list (string * jsval))
| JArr (elems : list jsval).

Inductive exn := TypeError | ReferenceError.

(** How a call ends: with a value, or by throwing. *)
Inductive completion (A : Type) :=
| Normal (a : A)
| Throw (e : exn).
Arguments Normal {A} a.
Arguments Throw {A} e.

#[global] Instance completion_ret : MRet completion := fun A a => Normal a.

#[global] Instance completion_bind : MBind completion := fun A B k c =>
  match c with
  | Normal a => k a
  | Throw e => Throw e
  end.

Definition number_to_string (n : number) : string :=
  match n with
  | NaN => "NaN"
  | Infinity false => "Infinity"
  | Infinity true => "-Infinity"
  | Int z => pretty z
  end.

(** ToString, as used by [e + ''] and by template literals, on the
    values that have a string form ([printable] below; [convertible]
    tells which conversions throw instead).  An array is joined with
    commas, [undefined] and [null] elements printing as the empty
    string. *)
Fixpoint to_string (v : jsval) : string :=
  match v with
  | JUndefined => "undefined"
  | JNull => "null"
  | JBool true => "true"
  | JBool false => "false"
  | JNum n => number_to_string n
  | JStr s => s
  | JObj _ => "[object Object]"
  | JArr elems =>
      let item e :=
        match e with
        | JUndefined | JNull => EmptyString
        | _ => to_string e
        end in
      (fix join (l : list jsval) : string :=
         match l with
         | [] => EmptyString
         | [e] => item e
         | e :: rest => item e +:+ "," +:+ join rest
         end) elems
  end.

(** Whether a value can be converted to a string at all.  An object whose
    own [toString] is a data property has no callable conversion method
    left ([valueOf] gives the object back), so [e + ''] and a template
    literal throw a TypeError on it; an array is converted by joining its
    elements, and throws when one of them does. *)
Fixpoint convertible (v : jsval) : bool :=
  match v with
  | JObj fields =>
      negb (existsb (fun kv => String.eqb (fst kv) "toString") fields)
  | JArr elems => forallb convertible elems
  | _ => true
  end.

(** [e + '']: the string form of a convertible value, a TypeError
    otherwise. *)
Definition add_empty_string (e : jsval) : completion string :=
  if convertible e then Normal (to_string e) else Throw TypeError.

(** The integers every one of which is a number of its own and is printed
    with all its decimal digits: those up to 2^53 in magnitude.  Beyond
    them [to_string] is not the digits JavaScript prints. *)
Definition in_range (n : number) : bool :=
  match n with
  | Int z => Z.abs z <=? 2 ^ 53
  | _ => true
  end.

(** The values on which [to_string] is the string JavaScript gives:
    convertible, with every number in range. *)
Fixpoint printable (v : jsval) : bool :=
  match v with
  | JNum n => in_range n
  | JObj fields =>
      negb (existsb (fun kv => String.eqb (fst kv) "toString") fields)
  | JArr elems => forallb printable elems
  | _ => true
  end.

(** ToBoolean. *)
Definition truthy (v : jsval) : bool :=
  match v with
  | JUndefined | JNull => false
  | JBool b => b
  | JNum NaN => false
  | JNum (Int z) => negb (Z.eqb z 0)
  | JNum (Infinity _) => true
  | JStr s => negb (String.eqb s EmptyString)
  | JObj _ | JArr _ => true
  end.

Definition isArray (v : jsval) : bool :=
  match v with
  | JArr _ => true
  | _ => false
  end.

Fixpoint lookup_field (k : string) (fields : list (string * jsval)) : jsval :=
  match fields with
  | [] => JUndefined
  | (k', v) :: rest => if String.eqb k k' then v else lookup_field k rest
  end.

(** [o.k] for a data property name [k]: reading from [undefined] or
    [null] throws, any other value without the property gives
    [undefined]. *)
Definition get (o : jsval) (k : string) : completion jsval :=
  match o with
  | JUndefined | JNull => Throw TypeError
  | JObj fields => Normal (lookup_field k fields)
  | _ => Normal JUndefined
  end.

(** [o[k] = v] on the properties of a plain object: an existing property
    keeps its place, a new one is added last. *)
Fixpoint set_field (k : string) (v : jsval) (fields : list (string * jsval))
  : list (string * jsval) :=
  match fields with
  | [] => [(k, v)]
  | (k', v') :: rest =>
      if String.eqb k k' then (k, v) :: rest else (k', v') :: set_field k v rest
  end.

(** [Object.assign(target, source)] on plain objects. *)
Definition assign (target source : list (string * jsval)) : list (string * jsval) :=
  fold_left (fun acc kv => set_field (fst kv) (snd kv) acc) source target.

(** Duplicate removal that keeps the first occurrence of every key, in
    the order of the input; [seen] holds the keys met so far. *)
Fixpoint uniq_from {A} (key : A -> string) (seen : list string) (l : list A) : list A :=
  match l with
  | [] => []
  | x :: rest =>
      if bool_decide (key x ∈ seen) then uniq_from key seen rest
      else x :: uniq_from key (key x :: seen) rest
  end.

Definition uniq_by {A} (key : A -> string) (l : list A) : list A :=
  uniq_from key [] l.

End JS.

Export JS.

(** ** The equal-to-set matcher (engine/matchers) *)

Module Matcher.

(** The whitelist configuration: [vo.whitelist] is the array of strings
    of the wire format. *)
Record whitelistObject := { whitelist : list string }.

(** lodash [uniq] on an array of strings. *)
Definition _uniq (l : list string) : list string := uniq_by id l.

(** lodash [isEqual] on two arrays of strings: same length and equal
    elements position by position. *)
Fixpoint _isEqual (a b : list string) : bool :=
  match a, b with
  | [], [] => true
  | x :: a', y :: b' => String.eqb x y && _isEqual a' b'
  | _, _ => false
  end.

(** [value.map] exists on arrays only: on [undefined] and [null] the
    property read throws, on any other value the call of a missing
    method throws.  On an array the callback [e => e + ''] runs on the
    elements in order and the first one that cannot be converted
    throws. *)
Definition equalToSetMatcher (vo : whitelistObject) (value : jsval) : completion bool :=
  match value with
  | JArr elems =>
      coerced ← mapM (fun e => add_empty_string e) elems;
      let normalizedValue := _uniq coerced in
      let isEqual := _isEqual normalizedValue (whitelist vo) in
      Normal isEqual
  | _ => Throw TypeError
  end.

Definition equalToSetMatcherContext (vo : whitelistObject) : jsval -> completion bool :=
  equalToSetMatcher vo.

End Matcher.

(** ** The split-changes data source (splitio-cache/es6/ds/splitChanges.js) *)

Module SplitChanges.

Section DataSource.

(** The wire format of a split, what the mutator factory returns and the
    factory itself ([../mutators/splitChanges]) are parameters. *)
Variable RawSplit : Type.
Variable Mutator : Type.
Variable splitMutatorFactory : list RawSplit -> Mutator.

(** The parsed body of a response, [{till, splits}]. *)
Record json := { till : Z; splits : list RawSplit }.

(** The two ways the chain fails before its last [then]: the request
    promise rejects, or [resp.json()] rejects on a body that does not
    parse. *)
Inductive failure := RequestRejected | BodyNotJson.

(** What the service answers to one request. *)
Inductive fetched :=
| Failed (f : failure)
| Body (j : json).

(** The module-level variables: [let since = -1]. *)
Record module_state := { since : Z }.

Definition initial : module_state := {| since := -1 |}.

(** How the returned promise settles. *)
Inductive settled :=
| Resolved (m : Mutator)
| Rejected (f : failure).

(** One call as its callers see it: the [since] the request was built
    with and the settlement of the promise. *)
Record call := { request_since : Z; outcome : settled }.

(** One call, run to settlement in the module state [st] with no other
    call made or answered in between (calls in flight are [step]
    below). *)
Definition splitChangesDataSource (st : module_state) (r : fetched)
  : module_state * call :=
  let request := since st in
  match r with
  | Failed f =>
      (st, {| request_since := request; outcome := Rejected f |})
  | Body j =>
      let st' := {| since := till j |} in
      (st', {| request_since := request;
               outcome := Resolved (splitMutatorFactory (splits j)) |})
  end.

(** Whoever requires the module gets the same function over the same
    variables: a caller is only a label on a call. *)
Definition caller := nat.

Fixpoint run (st : module_state) (session : list (caller * fetched))
  : module_state * list (caller * call) :=
  match session with
  | [] => (st, [])
  | (who, r) :: rest =>
      let (st1, c) := splitChangesDataSource st r in
      let (st2, log) := run st1 rest in
      (st2, (who, c) :: log)
  end.

(** The value of [since] after each call of a sequence. *)
Fixpoint cursors (st : module_state) (rs : list fetched) : list Z :=
  match rs with
  | [] => []
  | r :: rest =>
      let st1 := fst (splitChangesDataSource st r) in
      since st1 :: cursors st1 rest
  end.

(** Every body of the sequence carries a [till] that is at least the
    [since] its request was built with. *)
Fixpoint tills_ahead (st : module_state) (rs : list fetched) : Prop :=
  match rs with
  | [] => True
  | r :: rest =>
      match r with
      | Body j => since st <= till j
      | Failed _ => True
      end /\ tills_ahead (fst (splitChangesDataSource st r)) rest
  end.

End DataSource.

Arguments till {RawSplit} j.
Arguments splits {RawSplit} j.
Arguments Failed {RawSplit} f.
Arguments Body {RawSplit} j.
Arguments Resolved {Mutator} m.
Arguments Rejected {Mutator} f.
Arguments request_since {Mutator} c.
Arguments outcome {Mutator} c.
Arguments splitChangesDataSource {RawSplit Mutator} splitMutatorFactory st r.
Arguments run {RawSplit Mutator} splitMutatorFactory st session.
Arguments cursors {RawSplit Mutator} splitMutatorFactory st rs.
Arguments tills_ahead {RawSplit Mutator} splitMutatorFactory st rs.

(** The till a response carries, when it has a parsed body. *)
Definition till_of {RawSplit} (r : fetched RawSplit) : option Z :=
  match r with
  | Body j => Some (till j)
  | Failed _ => None
  end.

Section Overlap.

Variable RawSplit : Type.
Variable Mutator : Type.
Variable splitMutatorFactory : list RawSplit -> Mutator.

(** Calls in flight.  A call reads [since] when it is made, to build its
    request, and writes it when its parsed body is handled; in between,
    other calls may be made and answered.  [in_flight] holds, oldest
    first, the since that each unanswered call has sent. *)
Record flights := { cursor : module_state; in_flight : list Z }.

(** A call is made, or the [n]-th unanswered call is answered. *)
Inductive event :=
| Issue
| Settle (n : nat) (r : fetched RawSplit).

Definition step (s : flights) (e : event) : flights :=
  match e with
  | Issue =>
      {| cursor := cursor s;
         in_flight := (in_flight s ++ [since (cursor s)])%list |}
  | Settle n r =>
      match in_flight s !! n with
      | None => s
      | Some _ =>
          {| cursor := fst (splitChangesDataSource splitMutatorFactory (cursor s) r);
             in_flight := delete n (in_flight s) |}
      end
  end.

(** The value of [since] after each event. *)
Fixpoint since_trace (s : flights) (es : list event) : list Z :=
  match es with
  | [] => []
  | e :: rest => since (cursor (step s e)) :: since_trace (step s e) rest
  end.

(** No call is made while another is unanswered. *)
Fixpoint one_at_a_time (s : flights) (es : list event) : Prop :=
  match es with
  | [] => True
  | e :: rest =>
      match e with
      | Issue => in_flight s = []
      | Settle _ _ => True
      end /\ one_at_a_time (step s e) rest
  end.

(** Every parsed body carries a till that is at least the since its own
    request was built with. *)
Fixpoint tills_ahead_of_requests (s : flights) (es : list event) : Prop :=
  match es with
  | [] => True
  | e :: rest =>
      match e with
      | Settle n (Body j) =>
          match in_flight s !! n with
          | Some sent => sent <= till j
          | None => True
          end
      | _ => True
      end /\ tills_ahead_of_requests (step s e) rest
  end.

End Overlap.

Arguments Issue {RawSplit}.
Arguments Settle {RawSplit} n r.
Arguments step {RawSplit Mutator} splitMutatorFactory s e.
Arguments since_trace {RawSplit Mutator} splitMutatorFactory s es.
Arguments one_at_a_time {RawSplit Mutator} splitMutatorFactory s es.
Arguments tills_ahead_of_requests {RawSplit Mutator} splitMutatorFactory s es.

End SplitChanges.

(** ** The public evaluation call *)

Module Evaluator.

Record Partition := { treatment : string; size : Z }.

Record Condition := {
  matcherType : string;
  matcherConfig : jsval;
  negate : bool;
  partitions : list Partition
}.

Record Split := {
  name : string;
  trafficTypeName : string;
  seed : Z;
  killed : bool;
  defaultTreatment : string;
  conditions : list Condition;
  changeNumber : Z;
  trafficAllocation : Z;
  trafficAllocationSeed : Z
}.

Record RuleSnapshot := { splits : gmap string Split; sinceCursor : Z }.

Record EvaluationContext := {
  key : string;
  bucketingKey : option string;
  attributes : gmap string jsval
}.

(** The label is [None] where the design names none. *)
Record EvaluationResult := {
  result_treatment : string;
  label : option string;
  result_changeNumber : option Z
}.

(** What can go wrong inside one evaluation: a matcher raises, or the
    partitions of the matched condition do not cover the bucket. *)
Inductive internal_error :=
| MatcherRaised (e : exn)
| NoPartition.

Section Engine.

(** The Condition Evaluator (section 4.3) and the hasher (section 4.2). *)
Variable evaluate : Condition -> EvaluationContext -> completion bool.
Variable bucket : Z -> string -> Z.

(** PARTITION_SELECT: the first partition whose cumulative bound exceeds
    the bucket. *)
Fixpoint partition_select (b acc : Z) (ps : list Partition) : option string :=
  match ps with
  | [] => None
  | p :: rest =>
      let bound := acc + size p in
      if b <? bound then Some (treatment p) else partition_select b bound rest
  end.

(** CONDITION_SCAN: the first condition, in declared order, whose
    evaluator returns true. *)
Fixpoint condition_scan (ctx : EvaluationContext) (cs : list Condition)
  : internal_error + option Condition :=
  match cs with
  | [] => inr None
  | c :: rest =>
      match evaluate c ctx with
      | Throw e => inl (MatcherRaised e)
      | Normal true => inr (Some c)
      | Normal false => condition_scan ctx rest
      end
  end.

Definition default_result (s : Split) (l : string) : EvaluationResult :=
  {| result_treatment := defaultTreatment s;
     label := Some l;
     result_changeNumber := Some (changeNumber s) |}.

(** Modelled from the spec: the Split Evaluator is not under src/; this is
    the state machine of section 4.4 past ENTRY's lookup, from the kill
    switch to DONE. *)
Definition evaluate_split (s : Split) (ctx : EvaluationContext)
  : internal_error + EvaluationResult :=
  if killed s then inr (default_result s "killed")
  else
    let bk := default (key ctx) (bucketingKey ctx) in
    if (trafficAllocation s <? 100)
       && (trafficAllocation s <=? bucket (trafficAllocationSeed s) bk)
    then inr (default_result s "not in traffic allocation")
    else
      match condition_scan ctx (conditions s) with
      | inl e => inl e
      | inr None => inr (default_result s "default rule")
      | inr (Some c) =>
          match partition_select (bucket (seed s) bk) 0 (partitions c) with
          | Some t =>
              inr {| result_treatment := t;
                     label := None;
                     result_changeNumber := Some (changeNumber s) |}
          | None => inl NoPartition
          end
      end.

Definition control : EvaluationResult :=
  {| result_treatment := "control";
     label := Some "definition not found";
     result_changeNumber := None |}.

(** Modelled from the spec: [getTreatment] is not under src/; this is the
    public evaluation call of sections 4.4 and 6 over the published
    snapshot, [None] standing for a cache that was never initialised.  An
    absent split and an internal error degrade to the control treatment. *)
Definition getTreatmentWithLabel (cache : option RuleSnapshot)
    (k : string) (bk : option string) (splitName : string)
    (attrs : gmap string jsval) : EvaluationResult :=
  match cache with
  | None => control
  | Some snapshot =>
      match splits snapshot !! splitName with
      | None => control
      | Some s =>
          let ctx := {| key := k; bucketingKey := bk; attributes := attrs |} in
          match evaluate_split s ctx with
          | inr r => r
          | inl _ =>
              {| result_treatment := "control";
                 label := None;
                 result_changeNumber := None |}
          end
      end
  end.

Definition getTreatment (cache : option RuleSnapshot)
    (k : string) (bk : option string) (splitName : string)
    (attrs : gmap string jsval) : string :=
  result_treatment (getTreatmentWithLabel cache k bk splitName attrs).

End Engine.

(** A Condition Evaluator over the equal-to-set matcher of the sources:
    the condition's configuration is the whitelist, the attribute is
    looked up under [attribute] and a missing one is [undefined]; the
    answer is XORed with [negate]. *)
Definition whitelist_of (config : jsval) : list string :=
  match config with
  | JArr l => map to_string l
  | _ => []
  end.

Definition evaluate_equal_to_set (attribute : string)
    (c : Condition) (ctx : EvaluationContext) : completion bool :=
  b ← Matcher.equalToSetMatcherContext
        {| Matcher.whitelist := whitelist_of (matcherConfig c) |}
        (default JUndefined (attributes ctx !! attribute));
  mret (xorb b (negate c)).

(** The split of the scenarios: one condition on the attribute, rolled
    out half to "on" and half to "off". *)
Definition demo : Split :=
  {| name := "demo";
     trafficTypeName := "user";
     seed := 7;
     killed := false;
     defaultTreatment := "off";
     conditions :=
       [{| matcherType := "EQUAL_TO_SET";
           matcherConfig := JArr [JStr "a"; JStr "b"];
           negate := false;
           partitions := [{| treatment := "on"; size := 50 |};
                          {| treatment := "off"; size := 50 |}] |}];
     changeNumber := 12;
     trafficAllocation := 100;
     trafficAllocationSeed := 3 |}.

Definition demo_snapshot : RuleSnapshot :=
  {| splits := {[ "demo" := demo ]}; sinceCursor := 12 |}.

End Evaluator.

(** ** The GA-to-Split integration *)

Module GaToSplit.

(** The helpers imported from [utils/lang] and [utils/inputValidation].
    [unicAsStrings] gives the pair of its argument's elements as the call
    leaves them and the elements of the array it returns; the validators
    take the value and the name of the calling method. *)
Record Imports := {
  isString : jsval -> bool;
  isFinite : jsval -> bool;
  unicAsStrings : list jsval -> list jsval * list jsval;
  validateEvent : jsval -> string -> jsval;
  validateEventValue : jsval -> string -> jsval;
  validateEventProperties : jsval -> string -> jsval;
  validateKey : jsval -> string -> jsval;
  validateTrafficType : jsval -> string -> jsval
}.

(** The analytics.js model of a hit, as its [get] method. *)
Definition model := jsval -> jsval.

Definition defaultFilter (m : model) : bool := true.

Record mapping := {
  eventTypeId : list (string * string);
  eventValue : list (string * string);
  eventProperties : list (string * list string)
}.

Definition defaultMapping : mapping :=
  {| eventTypeId := [];
     eventValue := [("event", "eventValue"); ("timing", "timingValue")];
     eventProperties :=
       [("pageview", ["page"]);
        ("screenview", ["screenName"]);
        ("event", ["eventCategory"; "eventAction"; "eventLabel"]);
        ("social", ["socialNetwork"; "socialAction"; "socialTarget"]);
        ("timing", ["timingCategory"; "timingVar"; "timingLabel"])] |}.

(** [o[k]] on one of the tables of a mapping, among its own properties
    (the names of [object_prototype_names] below are found on every
    table besides). *)
Fixpoint entry {A} (k : string) (table : list (string * A)) : option A :=
  match table with
  | [] => None
  | (k', a) :: rest => if String.eqb k k' then Some a else entry k rest
  end.

Definition mapperBuilder (mp : mapping) (m : model) : list (string * jsval) :=
  let hitType := to_string (m (JStr "hitType")) in
  let eventTypeId_ :=
    m (match entry hitType (eventTypeId mp) with
       | Some f => if truthy (JStr f) then JStr f else JStr "hitType"
       | None => JStr "hitType"
       end) in
  let value :=
    m (match entry hitType (eventValue mp) with
       | Some f => JStr f
       | None => JUndefined
       end) in
  let properties :=
    match entry hitType (eventProperties mp) with
    | Some fields =>
        fold_left (fun props f => set_field f (m (JStr f)) props) fields []
    | None => []
    end in
  [("eventTypeId", eventTypeId_); ("value", value); ("properties", JObj properties)].

Definition defaultMapper : model -> list (string * jsval) :=
  mapperBuilder defaultMapping.

Definition defaultPrefix : string := "ga".

Section WithImports.

Variable I : Imports.

(** The callback of [uniqueIdentities.filter]. *)
Definition valid_identity (identity : jsval) : completion bool :=
  if negb (truthy identity) then mret false
  else
    maybeKey ← get identity "key";
    maybeTT ← get identity "trafficType";
    if negb (isString I maybeKey) && negb (isFinite I maybeKey) then mret false
    else if negb (isString I maybeTT) then mret false
    else mret true.

(** An identity as the callback accepts it: truthy, with a key that is a
    string or a finite number and a trafficType that is a string. *)
Definition well_formed_identity (identity : jsval) : Prop :=
  truthy identity = true
  /\ exists k t,
       get identity "key" = Normal k
       /\ get identity "trafficType" = Normal t
       /\ (isString I k = true \/ isFinite I k = true)
       /\ isString I t = true.

(** [Array.prototype.filter] with a callback that may throw: a new array,
    the receiver untouched. *)
Fixpoint filter_array (p : jsval -> completion bool) (l : list jsval)
  : completion (list jsval) :=
  match l with
  | [] => mret []
  | x :: rest =>
      keep ← p x;
      kept ← filter_array p rest;
      mret (if keep : bool then x :: kept else kept)
  end.

(** The first component is [identities] as the call leaves it, the second
    how the call ends. *)
Definition validateIdentities (identities : jsval) : jsval * completion jsval :=
  match identities with
  | JArr elems =>
      let (elems', uniqueIdentities) := unicAsStrings I elems in
      (JArr elems',
       valid ← filter_array valid_identity uniqueIdentities;
       mret (JArr valid))
  | _ => (identities, mret JUndefined)
  end.

(** [x === false]. *)
Definition is_false (v : jsval) : bool :=
  match v with
  | JBool false => true
  | _ => false
  end.

Definition validateEventData (data : jsval) : completion bool :=
  let method := "splitio-ga-to-split:mapper" in
  id_ ← get data "eventTypeId";
  if negb (truthy (validateEvent I id_ method)) then mret false
  else
    value ← get data "value";
    if is_false (validateEventValue I value method) then mret false
    else
      props ← get data "properties";
      properties ← get (validateEventProperties I props method) "properties";
      if is_false properties then mret false
      else
        timestamp ← get data "timestamp";
        if truthy timestamp && negb (isFinite I timestamp) then mret false
        else
          key ← get data "key";
          if truthy key && is_false (validateKey I key method) then mret false
          else
            tt ← get data "trafficTypeName";
            if truthy tt && is_false (validateTrafficType I tt method)
            then mret false
            else mret true.

(** [opts.mapper]: the default mapper, or a custom one, which gives a plain
    object or a falsy value ([None]). *)
Inductive mapper_option :=
| DefaultMapper
| CustomMapper (f : model -> option (list (string * jsval))).

Definition is_default (m : mapper_option) : bool :=
  match m with
  | DefaultMapper => true
  | CustomMapper _ => false
  end.

Definition apply_mapper (mp : mapper_option) (m : model)
  : option (list (string * jsval)) :=
  match mp with
  | DefaultMapper => Some (defaultMapper m)
  | CustomMapper f => f m
  end.

Record options := {
  filter : model -> bool;
  mapper : mapper_option;
  prefix : jsval;
  identities : jsval
}.

(** What the handler finds outside its own scope: the binding of the
    identifier [event], which no enclosing function declares, in the
    global object ([None] when there is none), and the clock. *)
Record globals := {
  global_event : option jsval;
  Date_now : Z
}.

(** [storage.events.track]: the queue of tracked events, oldest first. *)
Definition track (queue : list jsval) (e : jsval) : list jsval := queue ++ [e].

(** The body of [opts.identities.forEach]. *)
Fixpoint track_identities (eventData : list (string * jsval))
    (ids : list jsval) (queue : list jsval) : list jsval * completion unit :=
  match ids with
  | [] => (queue, mret tt)
  | identity :: rest =>
      match get identity "key", get identity "trafficType" with
      | Normal k, Normal t =>
          let event :=
            assign [("key", k); ("trafficTypeName", t)] eventData in
          track_identities eventData rest (track queue (JObj event))
      | Throw e, _ | _, Throw e => (queue, Throw e)
      end
  end.

(** The function installed as [sendHitTask], after the original task has
    run and returned, with a filter and a mapper that return: the queue
    it leaves and how it ends. *)
Definition sendHitTask (G : globals) (opts : options) (m : model)
    (queue : list jsval) : list jsval * completion unit :=
  let eventData := if filter opts m then apply_mapper (mapper opts) m else None in
  match eventData with
  | None => (queue, mret tt)
  | Some data =>
      match (if is_default (mapper opts) then mret true
             else validateEventData (JObj data)) with
      | Throw e => (queue, Throw e)
      | Normal false => (queue, mret tt)
      | Normal true =>
          let data1 :=
            if truthy (prefix opts)
            then set_field "eventTypeId"
                   (JStr (to_string (prefix opts) +:+ "."
                          +:+ to_string (lookup_field "eventTypeId" data)))
                   data
            else data in
          let data2 :=
            if negb (truthy (lookup_field "timestamp" data1))
            then set_field "timestamp" (JNum (Int (Date_now G))) data1
            else data1 in
          if truthy (lookup_field "key" data2)
             && truthy (lookup_field "trafficTypeName" data2)
          then
            match global_event G with
            | None => (queue, Throw ReferenceError)
            | Some event => (track queue event, mret tt)
            end
          else
            match identities opts with
            | JArr ids => track_identities data2 ids queue
            | _ => (queue, Throw TypeError)
            end
      end
  end.

(** [a.length === 0] where [a] is known to be truthy. *)
Definition is_empty_array (v : jsval) : bool :=
  match v with
  | JArr [] => true
  | _ => false
  end.

(** The constructor of the plugin, up to the point where it reads the
    tracker's sendHitTask and replaces it: the options its handler
    closes over, or [None] when it returns before installing the
    handler. *)
Definition SplitTracker (opts : options) : completion (option options) :=
  validIdentities ← snd (validateIdentities (identities opts));
  if negb (truthy validIdentities) || is_empty_array validIdentities
  then mret None
  else
    mret (Some {| filter := filter opts;
                  mapper := mapper opts;
                  prefix := if isString I (prefix opts) then prefix opts
                            else JUndefined;
                  identities := validIdentities |}).

End WithImports.

(** A rendering of values in the manner of [JSON.stringify], and an
    instance of the imports that follows the helpers' names; they serve to
    run the definitions above on concrete inputs. *)
Definition quoted (s : string) : string :=
  String (Ascii.ascii_of_nat 34) (s +:+ String (Ascii.ascii_of_nat 34) EmptyString).

Fixpoint stringify (v : jsval) : string :=
  match v with
  | JUndefined => "undefined"
  | JNull => "null"
  | JBool true => "true"
  | JBool false => "false"
  | JNum (Int z) => pretty z
  | JNum _ => "null"
  | JStr s => quoted s
  | JObj fields =>
      "{" +:+
      (fix members (l : list (string * jsval)) : string :=
         match l with
         | [] => EmptyString
         | (k, x) :: rest =>
             quoted k +:+ ":" +:+ stringify x +:+ "," +:+ members rest
         end) fields
      +:+ "}"
  | JArr elems =>
      "[" +:+
      (fix items (l : list jsval) : string :=
         match l with
         | [] => EmptyString
         | x :: rest => stringify x +:+ "," +:+ items rest
         end) elems
      +:+ "]"
  end.

Definition is_string (v : jsval) : bool :=
  match v with
  | JStr _ => true
  | _ => false
  end.

Definition is_finite (v : jsval) : bool :=
  match v with
  | JNum (Int _) => true
  | _ => false
  end.

Definition or_false (ok : jsval -> bool) (v : jsval) : jsval :=
  if ok v then v else JBool false.

Definition lang : Imports :=
  {| isString := is_string;
     isFinite := is_finite;
     unicAsStrings := fun l => (l, uniq_by stringify l);
     validateEvent := fun v _ => or_false is_string v;
     validateEventValue := fun v _ =>
       or_false (fun v => is_finite v || negb (truthy v)) v;
     validateEventProperties := fun v _ => JObj [("properties", v)];
     validateKey := fun v _ => or_false (fun v => is_string v || is_finite v) v;
     validateTrafficType := fun v _ => or_false is_string v |}.

(** A page view, a list of identities with a duplicate and four invalid
    entries, and the options of a tracker whose custom mapper sets the
    key and the traffic type of the event itself. *)
Definition pageview : model := fun field =>
  match field with
  | JStr "hitType" => JStr "pageview"
  | JStr "page" => JStr "/home"
  | _ => JUndefined
  end.

Definition some_identities : jsval :=
  JArr [JObj [("key", JStr "u1"); ("trafficType", JStr "user")];
        JNull;
        JObj [("key", JStr "u1"); ("trafficType", JStr "user")];
        JObj [("key", JNum (Int 5)); ("trafficType", JStr "account")];
        JObj [("key", JNum NaN); ("trafficType", JStr "user")];
        JObj [("key", JStr "u2")];
        JStr "u3"].

Definition keyed_mapper (m : model) : option (list (string * jsval)) :=
  Some [("eventTypeId", m (JStr "hitType"));
        ("key", JStr "user-1");
        ("trafficTypeName", JStr "user")].

Definition plugin_options : options :=
  {| filter := defaultFilter;
     mapper := CustomMapper keyed_mapper;
     prefix := JStr defaultPrefix;
     identities := some_identities |}.

(** [o.k] as a value, [undefined] standing in where the read throws. *)
Definition field_of (o : jsval) (k : string) : jsval :=
  match get o k with
  | Normal v => v
  | Throw _ => JUndefined
  end.

(** Options as the SDK settings or the [ga('require', ...)] command give
    them: any subset of the four properties. *)
Record given_options := {
  given_filter : option (model -> bool);
  given_mapper : option mapper_option;
  given_prefix : option jsval;
  given_identities : option jsval
}.

(** One source of [Object.assign(target, source)] on options: a source
    that is [undefined] ([None]) is skipped, a property the source lacks
    leaves the target's. *)
Definition assign_options (target : options) (source : option given_options)
  : options :=
  match source with
  | None => target
  | Some g =>
      {| filter := default (filter target) (given_filter g);
         mapper := default (mapper target) (given_mapper g);
         prefix := default (prefix target) (given_prefix g);
         identities := default (identities target) (given_identities g) |}
  end.

(** [defaultOptions] of [GaToSplit]: one identity from the core settings
    when they have both a key and a traffic type. *)
Definition defaultOptions (coreSettings : jsval) : completion options :=
  k ← get coreSettings "key";
  both ← (if truthy k then get coreSettings "trafficType" else mret k);
  mret {| filter := defaultFilter;
          mapper := DefaultMapper;
          prefix := JStr defaultPrefix;
          identities :=
            if truthy both
            then JArr [JObj [("key", k); ("trafficType", both)]]
            else JUndefined |}.

(** The constructor from its arguments: [opts] is
    [Object.assign({}, defaultOptions, sdkOptions, pluginOptions)]. *)
Definition SplitTracker_of (I : Imports) (defaults : options)
    (sdkOptions pluginOptions : option given_options)
  : completion (option options) :=
  SplitTracker I
    (assign_options (assign_options defaults sdkOptions) pluginOptions).

(** Further inputs: an event as a custom mapper may give it, options with
    the default mapper and what the constructor makes of them, a mapper
    that sets an empty key, and core settings with and without a traffic
    type. *)
Definition purchase_event : jsval :=
  JObj [("eventTypeId", JStr "purchase");
        ("value", JNum (Int 5));
        ("timestamp", JNum (Int 1600000000000));
        ("key", JStr "user-1");
        ("trafficTypeName", JStr "user")].

Definition default_mapper_options : options :=
  {| filter := defaultFilter;
     mapper := DefaultMapper;
     prefix := JStr defaultPrefix;
     identities := some_identities |}.

Definition installed_options : options :=
  {| filter := defaultFilter;
     mapper := DefaultMapper;
     prefix := JStr defaultPrefix;
     identities :=
       JArr [JObj [("key", JStr "u1"); ("trafficType", JStr "user")];
             JObj [("key", JNum (Int 5)); ("trafficType", JStr "account")]] |}.

Definition empty_key_mapper (m : model) : option (list (string * jsval)) :=
  Some [("eventTypeId", m (JStr "hitType")); ("key", JStr EmptyString)].

Definition empty_key_options : options :=
  {| filter := defaultFilter;
     mapper := CustomMapper empty_key_mapper;
     prefix := JUndefined;
     identities :=
       JArr [JObj [("key", JStr "u1"); ("trafficType", JStr "user")]] |}.

Definition core_with_traffic_type : jsval :=
  JObj [("key", JStr "u1"); ("trafficType", JStr "user")].

Definition core_without_traffic_type : jsval :=
  JObj [("key", JStr "u1")].

(** The names every object inherits from [Object.prototype]: under these
    [o[k]] finds a property on an object that has none of its own, which
    [entry] and [lookup_field], reading own properties only, do not
    show. *)
Definition object_prototype_names : list string :=
  ["constructor"; "__proto__"; "hasOwnProperty"; "isPrototypeOf";
   "propertyIsEnumerable"; "toLocaleString"; "toString"; "valueOf";
   "__defineGetter__"; "__defineSetter__"; "__lookupGetter__";
   "__lookupSetter__"].

End GaToSplit.

(** * Properties *)

(** ** Duplicate removal *)

Section Uniq.

Context {A : Type} (key : A -> string).

Lemma uniq_from_elem (seen : list string) (l : list A) (x : A) :
  x ∈ uniq_from key seen l -> x ∈ l /\ key x ∉ seen.
Proof.
  revert seen. induction l as [|y l IH]; intros seen; simpl.
  - intros H. by apply elem_of_nil in H.
  - case_bool_decide as Hy.
    + intros H. destruct (IH _ H) as [? ?]. split; [by right | done].
    + intros [->|H]%elem_of_cons.
      * split; [by left | done].
      * destruct (IH _ H) as [? Hn]. split; [by right |].
        intros Hin. apply Hn. by right.
Qed.

Lemma uniq_from_keeps (seen : list string) (l : list A) (x : A) :
  x ∈ l -> key x ∉ seen -> key x ∈ map key (uniq_from key seen l).
Proof.
  revert seen. induction l as [|y l IH]; intros seen; simpl.
  - intros H. by apply elem_of_nil in H.
  - intros Hx Hs. case_bool_decide as Hy.
    + apply elem_of_cons in Hx as [->|Hx]; [done | by apply IH].
    + simpl. destruct (decide (key x = key y)) as [->|Hne]; [by left |].
      right. apply elem_of_cons in Hx as [->|Hx]; [done |].
      apply IH; [done |]. intros [?|?]%elem_of_cons; done.
Qed.

Lemma uniq_from_NoDup (seen : list string) (l : list A) :
  NoDup (map key (uniq_from key seen l)).
Proof.
  revert seen. induction l as [|y l IH]; intros seen; simpl.
  - constructor.
  - case_bool_decide as Hy; [apply IH |].
    simpl. constructor; [| apply IH].
    intros (x & Hk & Hx)%list_elem_of_fmap.
    apply uniq_from_elem in Hx as [_ Hn]. apply Hn. rewrite <- Hk. by left.
Qed.

Lemma uniq_by_NoDup (l : list A) : NoDup (uniq_by key l).
Proof. apply (NoDup_fmap_1 key), uniq_from_NoDup. Qed.

End Uniq.

(** ** The equal-to-set matcher *)

Section MatcherProperties.

Import Matcher.

Lemma _isEqual_eq (a b : list string) : _isEqual a b = true <-> a = b.
Proof.
  revert b. induction a as [|x a IH]; intros [|y b]; simpl; try easy.
  rewrite andb_true_iff, String.eqb_eq, IH. split.
  - by intros [-> ->].
  - intros [= -> ->]. done.
Qed.

Lemma elem_of__uniq (l : list string) (s : string) : s ∈ _uniq l <-> s ∈ l.
Proof.
  unfold _uniq, uniq_by. split.
  - intros H. by apply (uniq_from_elem id) in H as [? _].
  - intros H. apply (uniq_from_keeps id []) in H; [| apply not_elem_of_nil].
    by rewrite map_id in H.
Qed.

Lemma coerce_all (elems : list jsval) :
  mapM (fun e => add_empty_string e) elems
  = if forallb convertible elems then Normal (map to_string elems)
    else Throw TypeError.
Proof.
  induction elems as [|e elems IH]; [done |].
  cbn [mapM forallb map]. rewrite IH. unfold add_empty_string.
  by destruct (convertible e), (forallb convertible elems).
Qed.

(** The matcher on an array: a TypeError when an element cannot be
    converted, else the positional comparison of the coerced candidate,
    duplicates removed, with the whitelist. *)
Lemma equalToSetMatcher_array (vo : whitelistObject) (elems : list jsval) :
  equalToSetMatcher vo (JArr elems)
  = if forallb convertible elems
    then Normal (_isEqual (_uniq (map to_string elems)) (whitelist vo))
    else Throw TypeError.
Proof.
  unfold equalToSetMatcher. rewrite coerce_all.
  by destruct (forallb convertible elems).
Qed.

(** What the matcher computes on an array: it answers true exactly when
    the coerced candidate, duplicates removed, is the whitelist as a
    sequence. *)
Lemma equalToSetMatcher_true_iff (vo : whitelistObject) (elems : list jsval) :
  equalToSetMatcher vo (JArr elems) = Normal true
  <-> forallb convertible elems = true
      /\ _uniq (map to_string elems) = whitelist vo.
Proof.
  rewrite equalToSetMatcher_array.
  destruct (forallb convertible elems); split.
  - intros [= H]. split; [done |]. by apply _isEqual_eq in H.
  - intros [_ H]. f_equal. by apply _isEqual_eq.
  - discriminate.
  - intros [? _]. discriminate.
Qed.

(** A true answer is never wrong: the two collections then have the same
    members. *)
Lemma equalToSetMatcher_sound (vo : whitelistObject) (elems : list jsval) :
  equalToSetMatcher vo (JArr elems) = Normal true ->
  forall s, s ∈ whitelist vo <-> s ∈ map to_string elems.
Proof.
  intros [_ H]%equalToSetMatcher_true_iff s. rewrite <- H. apply elem_of__uniq.
Qed.

(** C1 (as the code has it): with whitelist ["a","b"] and value
    ["b","a","a"] the coerced, duplicate-free candidate has exactly the
    members of the whitelist, yet the matcher answers false, because the
    comparison goes position by position. *)
Theorem equalToSetMatcher_order_sensitive :
  let vo := {| whitelist := ["a"; "b"] |} in
  let elems := [JStr "b"; JStr "a"; JStr "a"] in
  (forall s, s ∈ _uniq (map to_string elems) <-> s ∈ whitelist vo)
  /\ equalToSetMatcherContext vo (JArr elems) = Normal false.
Proof.
  simpl. split; [| reflexivity].
  intros s. rewrite elem_of__uniq. simpl.
  rewrite !elem_of_cons, !elem_of_nil. tauto.
Qed.

(** C2 (as stated) fails: on [null] the matcher does not return false, it
    throws. *)
Lemma equalToSetMatcher_null_counterexample :
  ~ (forall (vo : whitelistObject) (value : jsval),
       isArray value = false -> equalToSetMatcher vo value = Normal false).
Proof.
  intros H. specialize (H {| whitelist := ["a"; "b"] |} JNull eq_refl).
  discriminate H.
Qed.

(** C2 (amended): on an array, the declared type of its argument, whose
    elements can all be converted to a string, the matcher returns a
    boolean and does not throw; on a missing, null or other non-array
    value, and on an array with an element that cannot be converted, it
    throws a TypeError. *)
Theorem equalToSetMatcher_total_on_arrays (vo : whitelistObject) (value : jsval) :
  match value with
  | JArr elems =>
      if forallb convertible elems
      then exists b : bool, equalToSetMatcher vo value = Normal b
      else equalToSetMatcher vo value = Throw TypeError
  | _ => equalToSetMatcher vo value = Throw TypeError
  end.
Proof.
  destruct value as [| | | | | |elems]; try reflexivity.
  rewrite equalToSetMatcher_array.
  destruct (forallb convertible elems); eauto.
Qed.

End MatcherProperties.

(** ** The split-changes data source *)

Section SplitChangesProperties.

Import SplitChanges.

Variable RawSplit : Type.
Variable Mutator : Type.
Variable splitMutatorFactory : list RawSplit -> Mutator.

Local Abbreviation dataSource := (splitChangesDataSource splitMutatorFactory).

Lemma dataSource_request (st : module_state) (r : fetched RawSplit) :
  request_since (snd (dataSource st r)) = since st.
Proof. by destruct r. Qed.

Lemma dataSource_body (st : module_state) (j : json RawSplit) :
  dataSource st (Body j)
  = ({| since := till j |},
     {| request_since := since st;
        outcome := Resolved (splitMutatorFactory (splits j)) |}).
Proof. reflexivity. Qed.

Lemma dataSource_failed (st : module_state) (f : failure) :
  dataSource st (Failed f)
  = (st, {| request_since := since st; outcome := Rejected f |}).
Proof. reflexivity. Qed.

(** Calls run to settlement one after the other: when every successful
    response carries a till that is at least the since its request was
    built with, the cursor never decreases. *)
Theorem since_monotone_when_tills_ahead
    (st : module_state) (rs : list (fetched RawSplit)) :
  tills_ahead splitMutatorFactory st rs ->
  Sorted Z.le (since st :: cursors splitMutatorFactory st rs).
Proof.
  revert st. induction rs as [|r rs IH]; intros st; simpl.
  - intros _. repeat constructor.
  - intros [Hr Hrest]. constructor; [by apply IH |].
    constructor. destruct r as [f|j]; simpl; [reflexivity | exact Hr].
Qed.

(** C4: when the fetch fails, by a rejected request or by a body that
    does not parse, the module state is what it was, the promise rejects
    without a mutator, and the next call builds its request with the same
    since. *)
Theorem failed_fetch_keeps_since
    (st : module_state) (f : failure) (next : fetched RawSplit) :
  let (st', c) := dataSource st (Failed f) in
  st' = st
  /\ outcome c = Rejected f
  /\ (forall m, outcome c <> Resolved m)
  /\ request_since c = since st
  /\ request_since (snd (dataSource st' next)) = since st.
Proof.
  simpl. repeat split; try done. apply dataSource_request.
Qed.

(** C5 (amended): when the till of a successful response equals the
    current since, the call resolves and the cursor keeps its value, and
    the call still applies the mutator factory to the splits of the
    response and resolves to the result, as for any other response. *)
Theorem same_till_still_resolves_to_mutator
    (st : module_state) (j : json RawSplit) :
  till j = since st ->
  let (st', c) := dataSource st (Body j) in
  st' = st /\ outcome c = Resolved (splitMutatorFactory (splits j)).
Proof.
  intros H. simpl. rewrite H. by destruct st.
Qed.

(** C6: after a successful fetch the promise resolves to the mutator
    factory applied to the splits of the response, since is the till of
    the response, and the next call builds its request with it. *)
Theorem successful_fetch_advances_since
    (st : module_state) (j : json RawSplit) (next : fetched RawSplit) :
  let (st', c) := dataSource st (Body j) in
  outcome c = Resolved (splitMutatorFactory (splits j))
  /\ since st' = till j
  /\ request_since (snd (dataSource st' next)) = till j.
Proof.
  simpl. repeat split. apply dataSource_request.
Qed.

Lemma run_app (st : module_state) (s1 s2 : list (caller * fetched RawSplit)) :
  run splitMutatorFactory st (s1 ++ s2)
  = let (st1, log1) := run splitMutatorFactory st s1 in
    let (st2, log2) := run splitMutatorFactory st1 s2 in
    (st2, (log1 ++ log2)%list).
Proof.
  revert st. induction s1 as [|[who r] s1 IH]; intros st; simpl.
  - by destruct (run _ st s2).
  - destruct (dataSource st r) as [st1 c]. rewrite IH.
    destruct (run _ st1 s1) as [st2 log1].
    by destruct (run _ st2 s2).
Qed.

(** C8: since starts at -1, so the first call after the module is loaded
    builds its request with -1 whatever comes back; and there is one
    cursor for all callers: after any session, a successful fetch by one
    caller is the since of the request of whichever caller comes next. *)
Theorem since_is_one_module_variable :
  since initial = -1
  /\ (forall (who : caller) (r : fetched RawSplit)
             (rest : list (caller * fetched RawSplit)),
        exists c log,
          snd (run splitMutatorFactory initial ((who, r) :: rest))
          = (who, c) :: log
          /\ request_since c = -1)
  /\ (forall (st : module_state) (before : list (caller * fetched RawSplit))
             (one other : caller) (j : json RawSplit) (r : fetched RawSplit),
        exists log c1 c2,
          snd (run splitMutatorFactory st
                 (before ++ [(one, Body j); (other, r)])%list)
          = (log ++ [(one, c1); (other, c2)])%list
          /\ request_since c2 = till j).
Proof.
  split; [reflexivity |]. split.
  - intros who r rest. simpl.
    destruct (dataSource initial r) as [st1 c] eqn:E.
    destruct (run _ st1 rest) as [st2 log].
    exists c, log. split; [reflexivity |].
    change c with (snd (st1, c)). rewrite <- E. apply dataSource_request.
  - intros st before one other j r. rewrite run_app.
    destruct (run _ st before) as [st1 log1]. simpl.
    destruct (dataSource {| since := till j |} r) as [st2 c2] eqn:E. simpl.
    eexists log1, _, c2. split; [reflexivity |].
    change c2 with (snd (st2, c2)). rewrite <- E. apply dataSource_request.
Qed.

End SplitChangesProperties.

(** C3 (as stated) fails: from the initial state, a response with till 10
    followed by one with till 3 resolves both calls and takes the cursor
    from 10 back to 3. *)
Lemma since_decreases_counterexample :
  ~ (forall (st : SplitChanges.module_state)
            (r : SplitChanges.fetched string),
       let (st', c) := SplitChanges.splitChangesDataSource id st r in
       (exists m, SplitChanges.outcome c = SplitChanges.Resolved m) ->
       SplitChanges.since st <= SplitChanges.since st').
Proof.
  intros H.
  pose (j1 := {| SplitChanges.till := 10; SplitChanges.splits := ["a"] |}).
  pose (j2 := {| SplitChanges.till := 3; SplitChanges.splits := ["a"] |}).
  pose (st1 := fst (SplitChanges.splitChangesDataSource id
                      SplitChanges.initial (SplitChanges.Body j1))).
  specialize (H st1 (SplitChanges.Body j2)). simpl in H.
  assert (10 <= 3) by (apply H; eauto). lia.
Qed.

(** C5 (as stated) fails: from the initial state, a response with till -1
    and one split resolves to the mutator factory's result for that
    split. *)
Lemma same_till_counterexample :
  ~ (forall (st : SplitChanges.module_state)
            (j : SplitChanges.json string),
       SplitChanges.till j = SplitChanges.since st ->
       forall m : list string,
         SplitChanges.outcome
           (snd (SplitChanges.splitChangesDataSource id st (SplitChanges.Body j)))
         <> SplitChanges.Resolved m).
Proof.
  intros H.
  exact (H SplitChanges.initial
           {| SplitChanges.till := -1; SplitChanges.splits := ["a"] |}
           eq_refl ["a"] eq_refl).
Qed.

(** A run of four calls, one after the other: tills 4, a failure, 4
    again and 9. *)
Lemma since_monotone_witness :
  Sorted Z.le
    (SplitChanges.since SplitChanges.initial
       :: SplitChanges.cursors (@id (list string)) SplitChanges.initial
            [SplitChanges.Body {| SplitChanges.till := 4; SplitChanges.splits := ["a"] |};
             SplitChanges.Failed SplitChanges.BodyNotJson;
             SplitChanges.Body {| SplitChanges.till := 4; SplitChanges.splits := [] |};
             SplitChanges.Body {| SplitChanges.till := 9; SplitChanges.splits := ["b"] |}]).
Proof.
  apply (since_monotone_when_tills_ahead string (list string) id).
  simpl. lia.
Defined.

(** A run of C5 (amended): the first poll, answered with till -1. *)
Lemma same_till_witness :
  let (st', c) :=
    SplitChanges.splitChangesDataSource (@id (list string)) SplitChanges.initial
      (SplitChanges.Body {| SplitChanges.till := -1; SplitChanges.splits := ["a"] |}) in
  st' = SplitChanges.initial
  /\ SplitChanges.outcome c = SplitChanges.Resolved ["a"].
Proof.
  apply (same_till_still_resolves_to_mutator string (list string) id
           SplitChanges.initial
           {| SplitChanges.till := -1; SplitChanges.splits := ["a"] |}).
  reflexivity.
Defined.

(** ** The public evaluation call *)

Section EvaluatorProperties.

Import Evaluator.

Variable evaluate : Condition -> EvaluationContext -> completion bool.
Variable bucket : Z -> string -> Z.

Lemma partition_select_listed (b acc : Z) (ps : list Partition) (t : string) :
  partition_select b acc ps = Some t -> t ∈ map treatment ps.
Proof.
  revert acc. induction ps as [|p ps IH]; intros acc; simpl; [done |].
  destruct (b <? acc + size p).
  - intros [= <-]. by left.
  - intros H. right. by eapply IH.
Qed.

Lemma evaluate_split_killed (s : Split) (ctx : EvaluationContext) :
  killed s = true ->
  evaluate_split evaluate bucket s ctx = inr (default_result s "killed").
Proof. intros H. unfold evaluate_split. by rewrite H. Qed.

(** A treatment that comes out of an evaluation is the default treatment
    of the split or one listed among the partitions of its conditions. *)
Lemma evaluate_split_listed (s : Split) (ctx : EvaluationContext)
    (r : EvaluationResult) :
  evaluate_split evaluate bucket s ctx = inr r ->
  result_treatment r = defaultTreatment s
  \/ exists c, c ∈ conditions s
               /\ result_treatment r ∈ map treatment (partitions c).
Proof.
  unfold evaluate_split. destruct (killed s); [intros [= <-]; by left |].
  destruct (_ && _); [intros [= <-]; by left |].
  destruct (condition_scan _ _ _) as [e|[c|]] eqn:Hscan;
    [discriminate | | intros [= <-]; by left].
  destruct (partition_select _ _ _) as [t|] eqn:Hsel; [| discriminate].
  intros [= <-]. right. exists c. split; [| by eapply partition_select_listed].
  clear Hsel. induction (conditions s) as [|c' cs IH]; simpl in Hscan;
    [discriminate |].
  destruct (evaluate c' ctx) as [[|]|]; [| | discriminate].
  - injection Hscan as ->. by left.
  - right. by apply IH.
Qed.

(** C7: [getTreatment] is a function to strings, so it returns and never
    raises; when the cache was never initialised, when the snapshot has
    no split of that name and when the evaluation of the split ends in an
    internal error, the string it returns is "control". *)
Theorem getTreatment_degrades_to_control
    (cache : option RuleSnapshot) (k : string) (bk : option string)
    (splitName : string) (attrs : gmap string jsval) :
  cache = None
  \/ (exists snapshot, cache = Some snapshot
                       /\ splits snapshot !! splitName = None)
  \/ (exists snapshot s e,
        cache = Some snapshot
        /\ splits snapshot !! splitName = Some s
        /\ evaluate_split evaluate bucket s
             {| key := k; bucketingKey := bk; attributes := attrs |} = inl e) ->
  getTreatment evaluate bucket cache k bk splitName attrs = "control".
Proof.
  unfold getTreatment, getTreatmentWithLabel.
  intros [-> | [(snapshot & -> & Hnone) | (snapshot & s & e & -> & Hs & He)]].
  - reflexivity.
  - by rewrite Hnone.
  - by rewrite Hs, He.
Qed.

End EvaluatorProperties.

(** Runs of C7: no cache; an unknown split; and a split whose
    equal-to-set condition meets a user without the attribute, on which
    the matcher throws. *)
Lemma getTreatment_control_witness :
  let evaluate := Evaluator.evaluate_equal_to_set "plans" in
  let bucket := fun (_ : Z) (_ : string) => 30 in
  Evaluator.getTreatment evaluate bucket None "k1" None "demo" ∅ = "control"
  /\ Evaluator.getTreatment evaluate bucket
       (Some Evaluator.demo_snapshot) "k1" None "other" ∅ = "control"
  /\ Evaluator.getTreatment evaluate bucket
       (Some Evaluator.demo_snapshot) "k1" None "demo" ∅ = "control".
Proof.
  intros evaluate bucket. split; [| split].
  - apply (getTreatment_degrades_to_control evaluate bucket). by left.
  - apply (getTreatment_degrades_to_control evaluate bucket).
    right; left. exists Evaluator.demo_snapshot. split; [reflexivity |].
    vm_compute. reflexivity.
  - apply (getTreatment_degrades_to_control evaluate bucket).
    right; right.
    exists Evaluator.demo_snapshot, Evaluator.demo,
      (Evaluator.MatcherRaised TypeError).
    split; [reflexivity |]. split; vm_compute; reflexivity.
Defined.

(** ** The GA-to-Split integration *)

Section GaToSplitProperties.

Import GaToSplit.

Variable I : Imports.

Lemma get_truthy (v : jsval) (k : string) :
  truthy v = true -> exists x, get v k = Normal x.
Proof. destruct v; simpl; try discriminate; eauto. Qed.

Lemma valid_identity_total (identity : jsval) :
  exists b : bool, valid_identity I identity = Normal b.
Proof.
  unfold valid_identity. destruct (truthy identity) eqn:Ht; simpl; [| by eexists].
  destruct (get_truthy identity "key" Ht) as [k ->].
  destruct (get_truthy identity "trafficType" Ht) as [t ->]. simpl.
  repeat (match goal with |- context [if ?c then _ else _] => destruct c end);
    by eexists.
Qed.

Lemma valid_identity_true (identity : jsval) :
  valid_identity I identity = Normal true -> well_formed_identity I identity.
Proof.
  unfold valid_identity, well_formed_identity.
  destruct (truthy identity) eqn:Ht; simpl; [| discriminate].
  destruct (get_truthy identity "key" Ht) as [k Hk].
  destruct (get_truthy identity "trafficType" Ht) as [t Htt].
  rewrite Hk, Htt. simpl.
  destruct (isString I k) eqn:Hsk, (isFinite I k) eqn:Hfk,
    (isString I t) eqn:Hst; simpl; try discriminate;
    intros _; (split; [done |]); exists k, t; auto.
Qed.

Lemma filter_array_spec (p : jsval -> completion bool) (l : list jsval) :
  (forall x, exists b : bool, p x = Normal b) ->
  exists r, filter_array p l = Normal r
            /\ sublist r l
            /\ Forall (fun x => p x = Normal true) r.
Proof.
  intros Hp. induction l as [|x l (r & Hr & Hsub & Hall)]; simpl.
  - exists []. by repeat split.
  - destruct (Hp x) as [b Hb]. rewrite Hb, Hr. simpl. destruct b.
    + exists (x :: r). repeat split; [by constructor | by constructor].
    + exists r. repeat split; [by constructor | done].
Qed.

(** The two facts taken from [unicAsStrings]: it leaves its argument as
    it was, and the array it returns has no duplicates. *)
Hypothesis unicAsStrings_reads : forall l, (unicAsStrings I l).1 = l.
Hypothesis unicAsStrings_NoDup : forall l, NoDup (unicAsStrings I l).2.

(** C9: on anything but an array [validateIdentities] returns
    [undefined]; on an array it returns, without throwing, an array with
    no duplicates in which every element is truthy, has a key that is a
    string or a finite number and a trafficType that is a string; and the
    argument is left as it was. *)
Theorem validateIdentities_valid_and_unique (identities : jsval) :
  match identities with
  | JArr _ =>
      exists valid,
        validateIdentities I identities = (identities, Normal (JArr valid))
        /\ NoDup valid
        /\ Forall (well_formed_identity I) valid
  | _ => validateIdentities I identities = (identities, Normal JUndefined)
  end.
Proof.
  destruct identities as [| | | | | |elems]; try reflexivity.
  unfold validateIdentities.
  pose proof (unicAsStrings_reads elems) as Hreads.
  pose proof (unicAsStrings_NoDup elems) as Hnodup.
  destruct (unicAsStrings I elems) as [elems' unique]. simpl in *. subst elems'.
  destruct (filter_array_spec (valid_identity I) unique valid_identity_total)
    as (valid & Hvalid & Hsub & Hall).
  exists valid. rewrite Hvalid. split; [reflexivity |]. split.
  - by eapply sublist_NoDup.
  - eapply Forall_impl; [exact Hall |]. apply valid_identity_true.
Qed.

Lemma lookup_set_field_ne (k k' : string) (v : jsval)
    (fields : list (string * jsval)) :
  k <> k' -> lookup_field k (set_field k' v fields) = lookup_field k fields.
Proof.
  intros Hne. induction fields as [|[k0 v0] fields IH]; simpl.
  - by rewrite (proj2 (String.eqb_neq k k') Hne).
  - destruct (String.eqb k' k0) eqn:E; simpl.
    + apply String.eqb_eq in E as <-.
      by rewrite (proj2 (String.eqb_neq k k') Hne).
    + destruct (String.eqb k k0); [done | apply IH].
Qed.

(** C10 (as the code has it): for a hit that passes the filter and is
    mapped, validly, to event data with a key and a trafficTypeName, the
    handler does not consult the identities, and what it hands to
    [storage.events.track] is the value of the identifier [event], which
    the handler does not declare, not the event data: with no such global
    binding the handler throws a ReferenceError and tracks nothing, with
    one it tracks whatever the binding holds. *)
Theorem sendHitTask_tracks_undeclared_event
    (G : globals) (opts : options) (m : model) (queue : list jsval)
    (data : list (string * jsval)) :
  filter opts m = true ->
  apply_mapper (mapper opts) m = Some data ->
  is_default (mapper opts) = true
    \/ validateEventData I (JObj data) = Normal true ->
  truthy (lookup_field "key" data) = true ->
  truthy (lookup_field "trafficTypeName" data) = true ->
  sendHitTask I G opts m queue
  = match global_event G with
    | None => (queue, Throw ReferenceError)
    | Some event => ((queue ++ [event])%list, Normal tt)
    end.
Proof.
  intros Hfilter Hmap Hvalid Hkey Htt. unfold sendHitTask.
  rewrite Hfilter, Hmap.
  assert ((if is_default (mapper opts) then mret true
           else validateEventData I (JObj data)) = Normal true) as ->.
  { destruct (is_default (mapper opts)); [done |].
    by destruct Hvalid as [? | ?]. }
  cbv zeta.
  assert (forall fields, 
            lookup_field "key"
              (if negb (truthy (lookup_field "timestamp" fields))
               then set_field "timestamp" (JNum (Int (Date_now G))) fields
               else fields) = lookup_field "key" fields) as Hts1.
  { intros fields. destruct (negb _); [| done].
    by apply lookup_set_field_ne. }
  assert (forall fields, 
            lookup_field "trafficTypeName"
              (if negb (truthy (lookup_field "timestamp" fields))
               then set_field "timestamp" (JNum (Int (Date_now G))) fields
               else fields) = lookup_field "trafficTypeName" fields) as Hts2.
  { intros fields. destruct (negb _); [| done].
    by apply lookup_set_field_ne. }
  rewrite Hts1, Hts2.
  destruct (truthy (prefix opts)).
  - rewrite !lookup_set_field_ne by done. by rewrite Hkey, Htt.
  - by rewrite Hkey, Htt.
Qed.

End GaToSplitProperties.

(** A run of C9 on seven identities, of which two remain. *)
Lemma validateIdentities_witness :
  exists valid,
    GaToSplit.validateIdentities GaToSplit.lang GaToSplit.some_identities
    = (GaToSplit.some_identities, Normal (JArr valid))
    /\ NoDup valid
    /\ Forall (GaToSplit.well_formed_identity GaToSplit.lang) valid.
Proof.
  exact (validateIdentities_valid_and_unique GaToSplit.lang
           (fun l => eq_refl)
           (fun l => uniq_by_NoDup GaToSplit.stringify l)
           GaToSplit.some_identities).
Defined.

(** A run of C10: the tracker is constructed from options whose mapper
    gives every event the key "user-1" and the traffic type "user"; on a
    page view the handler throws when [event] has no global binding, and
    tracks [undefined] when the binding holds [undefined]. *)
Lemma sendHitTask_witness :
  exists opts,
    GaToSplit.SplitTracker GaToSplit.lang GaToSplit.plugin_options
    = Normal (Some opts)
    /\ GaToSplit.sendHitTask GaToSplit.lang
         {| GaToSplit.global_event := None; GaToSplit.Date_now := 1600000000000 |}
         opts GaToSplit.pageview []
       = ([], Throw ReferenceError)
    /\ GaToSplit.sendHitTask GaToSplit.lang
         {| GaToSplit.global_event := Some JUndefined;
            GaToSplit.Date_now := 1600000000000 |}
         opts GaToSplit.pageview []
       = ([JUndefined], Normal tt).
Proof.
  eexists. split; [vm_compute; reflexivity |]. split.
  - apply (sendHitTask_tracks_undeclared_event GaToSplit.lang) with
      (data := [("eventTypeId", JStr "pageview");
                ("key", JStr "user-1");
                ("trafficTypeName", JStr "user")]);
      try reflexivity.
    right. vm_compute. reflexivity.
  - apply (sendHitTask_tracks_undeclared_event GaToSplit.lang) with
      (data := [("eventTypeId", JStr "pageview");
                ("key", JStr "user-1");
                ("trafficTypeName", JStr "user")]);
      try reflexivity.
    right. vm_compute. reflexivity.
Defined.

(** * Further properties *)

(** Closes a decidable goal on concrete data by evaluation. *)
Ltac by_decide :=
  match goal with
  | |- ?P => refine (bool_decide_unpack P _); vm_compute; exact Logic.I
  end.

(** ** Duplicate removal, continued *)

Section UniqMore.

Context {A : Type} (key : A -> string).

Lemma uniq_from_fresh (seen : list string) (l : list A) :
  NoDup (map key l) ->
  Forall (fun x => key x ∉ seen) l ->
  uniq_from key seen l = l.
Proof.
  revert seen. induction l as [|x l IH]; intros seen; simpl; [done |].
  intros [Hx Hl]%NoDup_cons [Hs Hall]%Forall_cons.
  rewrite bool_decide_eq_false_2 by done. f_equal. apply IH; [done |].
  apply Forall_forall. intros y Hy [Heq|Hin]%elem_of_cons.
  - apply Hx. rewrite <- Heq. by apply list_elem_of_fmap_2.
  - by apply (proj1 (Forall_forall _ _) Hall y).
Qed.

Lemma uniq_from_seen (seen : list string) (d : list A) :
  Forall (fun x => key x ∈ seen) d -> uniq_from key seen d = [].
Proof.
  induction 1 as [|x d Hx _ IH]; simpl; [done |].
  by rewrite bool_decide_eq_true_2.
Qed.

Lemma uniq_from_app_seen (seen : list string) (l d : list A) :
  Forall (fun x => key x ∈ seen \/ key x ∈ map key l) d ->
  uniq_from key seen (l ++ d) = uniq_from key seen l.
Proof.
  revert seen. induction l as [|x l IH]; intros seen Hd; simpl.
  - apply uniq_from_seen. eapply Forall_impl; [exact Hd |].
    simpl. intros y [?|H]; [done | by apply elem_of_nil in H].
  - case_bool_decide as Hx.
    + apply IH. eapply Forall_impl; [exact Hd |]. simpl.
      intros y [?|[->|?]%elem_of_cons]; auto.
    + f_equal. apply IH. eapply Forall_impl; [exact Hd |]. simpl.
      intros y [?|[->|?]%elem_of_cons]; [left; by right | left; by left | by right].
Qed.

End UniqMore.

(** ** The equal-to-set matcher, continued *)

Section MatcherMore.

Import Matcher.

Lemma map_to_string_JStr (ss : list string) : map to_string (map JStr ss) = ss.
Proof. induction ss as [|s ss IH]; simpl; [done | by rewrite IH]. Qed.

Lemma _isEqual_decide (a b : list string) : _isEqual a b = bool_decide (a = b).
Proof.
  destruct (_isEqual a b) eqn:E.
  - apply _isEqual_eq in E. by rewrite bool_decide_eq_true_2.
  - rewrite bool_decide_eq_false_2; [done |].
    intros H. apply _isEqual_eq in H. congruence.
Qed.

Lemma convertible_strings (ss : list string) :
  forallb convertible (map JStr ss) = true.
Proof. induction ss as [|s ss IH]; simpl; [done | exact IH]. Qed.

Fixpoint printable_convertible (v : jsval) :
  printable v = true -> convertible v = true.
Proof.
  destruct v as [| | | | | |elems]; simpl; try done.
  induction elems as [|e elems IH]; simpl; [done |].
  intros [He Hrest]%andb_true_iff.
  rewrite (printable_convertible e He). simpl. by apply IH.
Qed.

Lemma printable_all_convertible (elems : list jsval) :
  Forall (fun e => printable e = true) elems ->
  forallb convertible elems = true.
Proof.
  induction 1 as [|e elems He _ IH]; simpl; [done |].
  by rewrite (printable_convertible e He), IH.
Qed.

(** X1: a true answer is never wrong: when the matcher answers true on an
    array, the whitelist and the coerced candidate have the same
    members. *)
Theorem equalToSetMatcher_true_same_members
    (vo : whitelistObject) (elems : list jsval) :
  equalToSetMatcher vo (JArr elems) = Normal true ->
  forall s, s ∈ whitelist vo <-> s ∈ map to_string elems.
Proof.
  intros [_ H]%equalToSetMatcher_true_iff s. rewrite <- H. apply elem_of__uniq.
Qed.

(** X2: a whitelist that lists a string twice matches no array at all:
    the candidate is compared after its duplicates are removed, the
    whitelist as it is.  The matcher answers false on every array whose
    elements it can convert, and throws on the others. *)
Theorem equalToSetMatcher_duplicated_whitelist
    (vo : whitelistObject) (elems : list jsval) :
  ~ NoDup (whitelist vo) ->
  equalToSetMatcher vo (JArr elems)
  = if forallb convertible elems then Normal false else Throw TypeError.
Proof.
  intros Hdup. rewrite equalToSetMatcher_array.
  destruct (forallb convertible elems); [| done]. f_equal.
  destruct (_isEqual _ _) eqn:E; [| done].
  apply _isEqual_eq in E. destruct Hdup. rewrite <- E.
  apply (uniq_by_NoDup id).
Qed.

(** X3: on an array of distinct strings the matcher answers true exactly
    when the array is the whitelist, element for element in the same
    order. *)
Theorem equalToSetMatcher_distinct_strings
    (vo : whitelistObject) (ss : list string) :
  NoDup ss ->
  equalToSetMatcher vo (JArr (map JStr ss))
  = Normal (bool_decide (ss = whitelist vo)).
Proof.
  intros Hss. rewrite equalToSetMatcher_array, convertible_strings.
  rewrite map_to_string_JStr. unfold _uniq, uniq_by.
  rewrite uniq_from_fresh.
  - by rewrite _isEqual_decide.
  - by rewrite map_id.
  - apply Forall_forall. intros x _. apply not_elem_of_nil.
Qed.

(** X4: on arrays of printable values (convertible, every number an
    integer of at most 2^53 in magnitude), appending elements whose
    string form already occurs in the candidate does not change the
    answer. *)
Theorem equalToSetMatcher_ignores_repeats
    (vo : whitelistObject) (elems more : list jsval) :
  Forall (fun e => printable e = true) elems ->
  Forall (fun e => printable e = true
                   /\ to_string e ∈ map to_string elems) more ->
  equalToSetMatcher vo (JArr (elems ++ more))
  = equalToSetMatcher vo (JArr elems).
Proof.
  intros Helems Hmore. rewrite !equalToSetMatcher_array.
  rewrite forallb_app, (printable_all_convertible elems Helems).
  rewrite (printable_all_convertible more)
    by (eapply Forall_impl; [exact Hmore |]; by intros e [? _]).
  cbn [andb]. do 2 f_equal.
  rewrite map_app. unfold _uniq, uniq_by.
  apply (uniq_from_app_seen id).
  rewrite map_id. apply Forall_forall. intros s Hs. right.
  apply list_elem_of_fmap in Hs as (e & -> & He).
  by apply (proj1 (Forall_forall _ _) Hmore e).
Qed.

(** X20: on printable values the matcher sees only the string forms of
    the elements: an array and the array of its elements' string forms
    get the same answer, so the number 1 and the string "1" are one and
    the same member. *)
Theorem equalToSetMatcher_compares_string_forms
    (vo : whitelistObject) (elems : list jsval) :
  Forall (fun e => printable e = true) elems ->
  equalToSetMatcher vo (JArr (map (fun e => JStr (to_string e)) elems))
  = equalToSetMatcher vo (JArr elems).
Proof.
  intros Helems. rewrite !equalToSetMatcher_array.
  rewrite (printable_all_convertible elems Helems).
  assert (forallb convertible (map (fun e => JStr (to_string e)) elems) = true)
    as -> by (clear; induction elems as [|e elems IH]; simpl; [done | exact IH]).
  do 3 f_equal. clear.
  induction elems as [|e elems IH]; simpl; [done | by rewrite IH].
Qed.

End MatcherMore.

Lemma equalToSetMatcher_true_same_members_witness :
  "1" ∈ ["b"; "1"] <-> "1" ∈ map to_string [JStr "b"; JNum (Int 1); JStr "b"].
Proof.
  apply (equalToSetMatcher_true_same_members
           {| Matcher.whitelist := ["b"; "1"] |}
           [JStr "b"; JNum (Int 1); JStr "b"]).
  reflexivity.
Defined.

Lemma equalToSetMatcher_duplicated_whitelist_witness :
  Matcher.equalToSetMatcher {| Matcher.whitelist := ["a"; "a"] |}
    (JArr [JStr "a"; JStr "a"]) = Normal false.
Proof.
  apply equalToSetMatcher_duplicated_whitelist. simpl.
  intros H. apply NoDup_cons in H as [H _]. apply H. by left.
Defined.

Lemma equalToSetMatcher_distinct_strings_witness :
  Matcher.equalToSetMatcher {| Matcher.whitelist := ["a"; "b"] |}
    (JArr (map JStr ["b"; "a"]))
  = Normal (bool_decide (["b"; "a"] = ["a"; "b"])).
Proof.
  apply (equalToSetMatcher_distinct_strings {| Matcher.whitelist := ["a"; "b"] |}).
  by_decide.
Defined.

Lemma equalToSetMatcher_ignores_repeats_witness :
  Matcher.equalToSetMatcher {| Matcher.whitelist := ["a"; "1"] |}
    (JArr ([JStr "a"; JNum (Int 1)] ++ [JStr "1"; JStr "a"]))
  = Matcher.equalToSetMatcher {| Matcher.whitelist := ["a"; "1"] |}
      (JArr [JStr "a"; JNum (Int 1)]).
Proof.
  apply equalToSetMatcher_ignores_repeats.
  - apply Forall_cons_2; [reflexivity |].
    apply Forall_cons_2; [reflexivity | apply Forall_nil_2].
  - apply Forall_cons_2; [split; [reflexivity | by_decide] |].
    apply Forall_cons_2; [split; [reflexivity | by_decide] |].
    apply Forall_nil_2.
Defined.

Lemma equalToSetMatcher_compares_string_forms_witness :
  Matcher.equalToSetMatcher {| Matcher.whitelist := ["1"; "true"] |}
    (JArr (map (fun e => JStr (to_string e)) [JNum (Int 1); JBool true]))
  = Matcher.equalToSetMatcher {| Matcher.whitelist := ["1"; "true"] |}
      (JArr [JNum (Int 1); JBool true]).
Proof.
  apply equalToSetMatcher_compares_string_forms.
  apply Forall_cons_2; [reflexivity |].
  apply Forall_cons_2; [reflexivity | apply Forall_nil_2].
Defined.

(** ** The split-changes data source, continued *)

Section SplitChangesMore.

Import SplitChanges.

Variable RawSplit : Type.
Variable Mutator : Type.
Variable splitMutatorFactory : list RawSplit -> Mutator.

Local Abbreviation session_run := (run splitMutatorFactory).

Lemma run_cons (st : module_state) (who : caller) (r : fetched RawSplit)
    (rest : list (caller * fetched RawSplit)) :
  session_run st ((who, r) :: rest)
  = (fst (session_run (fst (splitChangesDataSource splitMutatorFactory st r)) rest),
     (who, snd (splitChangesDataSource splitMutatorFactory st r))
       :: snd (session_run (fst (splitChangesDataSource splitMutatorFactory st r)) rest)).
Proof.
  simpl. destruct (splitChangesDataSource _ st r) as [st1 c]. simpl.
  by destruct (run _ st1 rest).
Qed.

(** X5: after any session of calls, since is the till of the last
    response that had a parsed body, whoever made the call, and it is what
    it was before the session when every call failed. *)
Theorem since_after_session
    (st : module_state) (session : list (caller * fetched RawSplit)) :
  since (fst (session_run st session))
  = default (since st) (last (omap (fun cr => till_of cr.2) session)).
Proof.
  revert st. induction session as [|[who r] rest IH]; intros st; [done |].
  rewrite run_cons. cbn [fst]. rewrite IH. destruct r as [f|j]; simpl; [done |].
  rewrite last_cons. by destruct (last _).
Qed.

(** X6: when the calls of a session are run one after the other, each
    settled before the next is made, every call's request carries the
    since the call before it left: the requests are the starting since
    followed by the cursor after each call but the last. *)
Theorem requests_follow_cursor
    (st : module_state) (session : list (caller * fetched RawSplit)) :
  map (fun wc => request_since wc.2) (snd (session_run st session))
  = take (length session)
      (since st :: cursors splitMutatorFactory st (map snd session)).
Proof.
  revert st. induction session as [|[who r] rest IH]; intros st; [done |].
  rewrite run_cons. cbn [snd map length take fst].
  rewrite (IH (fst (splitChangesDataSource splitMutatorFactory st r))).
  f_equal. by destruct r.
Qed.

(** X7: when the calls of a session are run one after the other, the
    calls that fail at the request or at the parsing of the body, the
    two failures that come before since is written, leave no trace in
    the module: the session ends in the same state as the session of its
    other calls alone. *)
Theorem failed_calls_leave_no_trace
    (st : module_state) (session : list (caller * fetched RawSplit)) :
  fst (session_run st session)
  = fst (session_run st
           (filter (fun cr => is_Some (till_of cr.2)) session)).
Proof.
  revert st. induction session as [|[who r] rest IH]; intros st; [done |].
  rewrite run_cons. cbn [fst]. destruct r as [f|j].
  - rewrite filter_cons_False by (simpl; by intros [? ?]). apply IH.
  - rewrite filter_cons_True by (simpl; eauto).
    rewrite run_cons. cbn [fst]. apply IH.
Qed.


End SplitChangesMore.

(** ** Objects as property lists *)

Section Fields.

Lemma lookup_set_field_eq (k : string) (v : jsval)
    (fields : list (string * jsval)) :
  lookup_field k (set_field k v fields) = v.
Proof.
  induction fields as [|[k0 v0] fields IH]; simpl.
  - by rewrite String.eqb_refl.
  - destruct (String.eqb k k0) eqn:E; simpl.
    + by rewrite String.eqb_refl.
    + by rewrite E.
Qed.

Lemma lookup_field_absent (k : string) (fields : list (string * jsval)) :
  k ∉ map fst fields -> lookup_field k fields = JUndefined.
Proof.
  induction fields as [|[k0 v0] fields IH]; simpl; [done |].
  intros Hk. destruct (String.eqb k k0) eqn:E.
  - apply String.eqb_eq in E as ->. destruct Hk. by left.
  - apply IH. intros ?. apply Hk. by right.
Qed.

Lemma elem_of_set_field (k k' : string) (v : jsval)
    (fields : list (string * jsval)) :
  k ∈ map fst (set_field k' v fields) <-> k = k' \/ k ∈ map fst fields.
Proof.
  induction fields as [|[k0 v0] fields IH]; simpl.
  - rewrite elem_of_cons. tauto.
  - destruct (String.eqb k' k0) eqn:E; simpl.
    + apply String.eqb_eq in E as ->. rewrite !elem_of_cons. tauto.
    + rewrite !elem_of_cons, IH. tauto.
Qed.

Lemma NoDup_set_field (k : string) (v : jsval) (fields : list (string * jsval)) :
  NoDup (map fst fields) -> NoDup (map fst (set_field k v fields)).
Proof.
  induction fields as [|[k0 v0] fields IH]; simpl.
  - intros _. apply NoDup_singleton.
  - intros [Hk0 Hnd]%NoDup_cons. destruct (String.eqb k k0) eqn:E; simpl.
    + apply String.eqb_eq in E as ->. by apply NoDup_cons.
    + apply NoDup_cons. split; [| by apply IH].
      rewrite elem_of_set_field. intros [->|?]; [| done].
      by rewrite String.eqb_refl in E.
Qed.

Lemma lookup_assign (k : string) (target source : list (string * jsval)) :
  NoDup (map fst source) ->
  lookup_field k (assign target source)
  = if decide (k ∈ map fst source) then lookup_field k source
    else lookup_field k target.
Proof.
  unfold assign. revert target.
  induction source as [|[k0 v0] source IH]; intros target;
    cbn [fold_left map fst snd lookup_field].
  - intros _. rewrite decide_False; [done | apply not_elem_of_nil].
  - intros [Hk0 Hnd]%NoDup_cons. rewrite IH by done.
    destruct (String.eqb k k0) eqn:E.
    + apply String.eqb_eq in E as ->.
      rewrite decide_False by done. rewrite lookup_set_field_eq.
      rewrite decide_True; [done | by left].
    + assert (k <> k0) as Hne by (intros ->; by rewrite String.eqb_refl in E).
      destruct (decide (k ∈ map fst source)) as [Hin|Hout].
      * rewrite decide_True; [done | by right].
      * rewrite lookup_set_field_ne by done.
        rewrite decide_False; [done |].
        intros [?|?]%elem_of_cons; done.
Qed.

End Fields.

(** ** The GA-to-Split integration, continued *)

Section GaToSplitMore.

Import GaToSplit.

Variable I : Imports.

Lemma valid_identity_complete (identity : jsval) :
  well_formed_identity I identity -> valid_identity I identity = Normal true.
Proof.
  intros (Ht & k & t & Hk & Htt & Hkey & Hs). unfold valid_identity.
  rewrite Ht. simpl. rewrite Hk, Htt. simpl. rewrite Hs.
  destruct Hkey as [-> | ->]; simpl; [done |].
  by destruct (isString I k).
Qed.

Lemma filter_array_exact (p : jsval -> completion bool) (l : list jsval) :
  (forall x, exists b : bool, p x = Normal b) ->
  exists r, filter_array p l = Normal r
            /\ sublist r l
            /\ forall x, x ∈ r <-> x ∈ l /\ p x = Normal true.
Proof.
  intros Hp. induction l as [|x l (r & Hr & Hsub & Hiff)]; simpl.
  - exists []. split; [done |]. split; [done |].
    intros x. rewrite elem_of_nil. tauto.
  - destruct (Hp x) as [b Hb]. rewrite Hb, Hr. simpl. destruct b.
    + exists (x :: r). split; [done |]. split; [by constructor |].
      intros y. rewrite !elem_of_cons, Hiff. split.
      * intros [->|[? ?]]; auto.
      * intros [[->|?] ?]; auto.
    + exists r. split; [done |]. split; [by constructor |].
      intros y. rewrite elem_of_cons, Hiff. split.
      * intros [? ?]; auto.
      * intros [[->|?] ?]; [congruence | auto].
Qed.




Lemma get_field_of (data : jsval) (k : string) (v : jsval) :
  get data k = Normal v -> field_of data k = v.
Proof. unfold field_of. by intros ->. Qed.

Lemma get_not_nullish (data : jsval) (k : string) :
  data <> JUndefined -> data <> JNull -> get data k = Normal (field_of data k).
Proof. by destruct data. Qed.

(** X11: an event that [validateEventData] accepts passed every check:
    its type was accepted by [validateEvent], its value and its
    properties were not answered with [false], its timestamp is falsy or
    a finite number, and its key and traffic type are falsy or were not
    answered with [false] by their validators. *)
Theorem validateEventData_accepted (data : jsval) :
  validateEventData I data = Normal true ->
  let method := "splitio-ga-to-split:mapper" in
  truthy (validateEvent I (field_of data "eventTypeId") method) = true
  /\ is_false (validateEventValue I (field_of data "value") method) = false
  /\ is_false (field_of (validateEventProperties I (field_of data "properties")
                           method) "properties") = false
  /\ (truthy (field_of data "timestamp") = false
      \/ isFinite I (field_of data "timestamp") = true)
  /\ (truthy (field_of data "key") = false
      \/ is_false (validateKey I (field_of data "key") method) = false)
  /\ (truthy (field_of data "trafficTypeName") = false
      \/ is_false (validateTrafficType I (field_of data "trafficTypeName")
                     method) = false).
Proof.
  intros H. cbv zeta.
  assert (data <> JUndefined) as Hu by (intros ->; discriminate H).
  assert (data <> JNull) as Hn by (intros ->; discriminate H).
  unfold validateEventData in H. cbv zeta in H.
  rewrite !(get_not_nullish data) in H by done. simpl in H.
  destruct (truthy (validateEvent _ _ _)); simpl in H; [| discriminate H].
  destruct (is_false (validateEventValue _ _ _)); [discriminate H |].
  destruct (get (validateEventProperties _ _ _) _) as [properties|e] eqn:Hp;
    simpl in H; [| discriminate H].
  rewrite (get_field_of _ _ _ Hp).
  destruct (is_false properties); [discriminate H |].
  destruct (truthy (field_of data "timestamp")),
    (isFinite I (field_of data "timestamp")); simpl in H;
    try discriminate H;
    destruct (truthy (field_of data "key")),
      (is_false (validateKey _ _ _)); simpl in H;
      try discriminate H;
      destruct (truthy (field_of data "trafficTypeName")),
        (is_false (validateTrafficType _ _ _)); simpl in H;
        try discriminate H; auto 10.
Qed.

(** X12: [validateEventData] throws only a TypeError, and only when its
    argument is [undefined] or [null], the case its precondition
    excludes, or when [validateEventProperties] answers [undefined] or
    [null], from which no [properties] can be read. *)
Theorem validateEventData_throws_only (data : jsval) (e : exn) :
  validateEventData I data = Throw e ->
  e = TypeError
  /\ (data = JUndefined \/ data = JNull
      \/ validateEventProperties I (field_of data "properties")
           "splitio-ga-to-split:mapper" = JUndefined
      \/ validateEventProperties I (field_of data "properties")
           "splitio-ga-to-split:mapper" = JNull).
Proof.
  intros H.
  assert (data = JUndefined \/ data = JNull
          \/ (data <> JUndefined /\ data <> JNull)) as [->|[->|[Hu Hn]]]
    by (destruct data; auto);
    [injection H as <-; auto | injection H as <-; auto |].
  unfold validateEventData in H. cbv zeta in H.
  rewrite !(get_not_nullish data) in H by done. simpl in H.
  destruct (truthy (validateEvent _ _ _)); simpl in H; [| discriminate H].
  destruct (is_false (validateEventValue _ _ _)); [discriminate H |].
  destruct (validateEventProperties _ _ _) as [| | | | | |] eqn:Hp;
    simpl in H; try (injection H as <-; auto 10);
    repeat (match type of H with
            | context [if ?c then _ else _] => destruct c; simpl in H
            end); discriminate H.
Qed.

End GaToSplitMore.

(** ** The handler and the constructor *)

Section GaToSplitHandler.

Import GaToSplit.

Variable I : Imports.

#[warnings="-inconsistent-scopes"]
Local Abbreviation prefixed p data :=
  (if truthy p
   then set_field "eventTypeId"
          (JStr (to_string p +:+ "."
                 +:+ to_string (lookup_field "eventTypeId" data))) data
   else data).

#[warnings="-inconsistent-scopes"]
Local Abbreviation stamped now data :=
  (if negb (truthy (lookup_field "timestamp" data))
   then set_field "timestamp" (JNum (Int now)) data
   else data).

Lemma prefixed_lookup (p : jsval) (data : list (string * jsval)) (k : string) :
  k <> "eventTypeId" ->
  lookup_field k (prefixed p data) = lookup_field k data.
Proof. intros Hk. destruct (truthy p); [by apply lookup_set_field_ne | done]. Qed.

Lemma stamped_lookup (now : Z) (data : list (string * jsval)) (k : string) :
  k <> "timestamp" ->
  lookup_field k (stamped now data) = lookup_field k data.
Proof. intros Hk. destruct (negb _); [by apply lookup_set_field_ne | done]. Qed.

Lemma prefixed_keys (p : jsval) (data : list (string * jsval)) (k : string) :
  k <> "eventTypeId" ->
  k ∈ map fst (prefixed p data) <-> k ∈ map fst data.
Proof.
  intros Hk. destruct (truthy p); [| done].
  rewrite elem_of_set_field. tauto.
Qed.

Lemma stamped_keys (now : Z) (data : list (string * jsval)) (k : string) :
  k <> "timestamp" ->
  k ∈ map fst (stamped now data) <-> k ∈ map fst data.
Proof.
  intros Hk. destruct (negb _); [| done].
  rewrite elem_of_set_field. tauto.
Qed.

Lemma prefixed_NoDup (p : jsval) (data : list (string * jsval)) :
  NoDup (map fst data) -> NoDup (map fst (prefixed p data)).
Proof. intros H. destruct (truthy p); [by apply NoDup_set_field | done]. Qed.

Lemma stamped_NoDup (now : Z) (data : list (string * jsval)) :
  NoDup (map fst data) -> NoDup (map fst (stamped now data)).
Proof. intros H. destruct (negb _); [by apply NoDup_set_field | done]. Qed.

Lemma get_truthy_field (v : jsval) (k : string) :
  truthy v = true -> get v k = Normal (field_of v k).
Proof. by destruct v. Qed.

Lemma track_identities_appends (data : list (string * jsval))
    (ids queue : list jsval) :
  exists tracked,
    fst (track_identities data ids queue) = (queue ++ tracked)%list.
Proof.
  revert queue. induction ids as [|identity ids IH]; intros queue;
    cbn [track_identities].
  - exists []. by rewrite app_nil_r.
  - destruct (get identity "key") as [k|e], (get identity "trafficType") as [t|e'];
      try (exists []; by rewrite app_nil_r).
    destruct (IH (track queue
                    (JObj (assign [("key", k); ("trafficTypeName", t)] data))))
      as [tracked ->].
    unfold track. rewrite <- app_assoc. by eexists.
Qed.

Lemma track_identities_truthy (data : list (string * jsval))
    (ids queue : list jsval) :
  Forall (fun identity => truthy identity = true) ids ->
  track_identities data ids queue
  = ((queue ++ map (fun identity =>
                      JObj (assign [("key", field_of identity "key");
                                    ("trafficTypeName",
                                     field_of identity "trafficType")] data))
                   ids)%list,
     Normal tt).
Proof.
  intros Hall. revert queue.
  induction Hall as [|identity ids Ht _ IH]; intros queue;
    cbn [track_identities map].
  - by rewrite app_nil_r.
  - rewrite !(get_truthy_field identity) by done.
    rewrite IH. unfold track. by rewrite <- app_assoc.
Qed.

(** The handler only ever adds to the queue of tracked events. *)
Lemma sendHitTask_only_appends
    (G : globals) (opts : options) (m : model) (queue : list jsval) :
  exists tracked,
    fst (sendHitTask I G opts m queue) = (queue ++ tracked)%list.
Proof.
  assert (exists tracked : list jsval, queue = (queue ++ tracked)%list) as Hnil
    by (exists []; by rewrite app_nil_r).
  unfold sendHitTask. cbv zeta.
  destruct (if filter opts m then apply_mapper (mapper opts) m else None)
    as [data|]; [| done].
  destruct (if is_default (mapper opts) then mret true
            else validateEventData I (JObj data)) as [[|]|e]; [| done | done].
  destruct (truthy _ && truthy _).
  - destruct (global_event G) as [event|]; [| done]. by eexists.
  - destruct (identities opts); try done. apply track_identities_appends.
Qed.

(** The branch of the handler that goes through the identities. *)
Lemma sendHitTask_identities_branch
    (G : globals) (opts : options) (m : model) (queue : list jsval)
    (data : list (string * jsval)) (ids : list jsval) :
  filter opts m = true ->
  apply_mapper (mapper opts) m = Some data ->
  NoDup (map fst data) ->
  is_default (mapper opts) = true
    \/ validateEventData I (JObj data) = Normal true ->
  truthy (lookup_field "key" data)
    && truthy (lookup_field "trafficTypeName" data) = false ->
  identities opts = JArr ids ->
  Forall (fun identity => truthy identity = true) ids ->
  exists events,
    sendHitTask I G opts m queue = ((queue ++ events)%list, Normal tt)
    /\ Forall2
         (fun identity event =>
            exists fields,
              event = JObj fields
              /\ lookup_field "key" fields
                 = (if decide ("key" ∈ map fst data)
                    then lookup_field "key" data
                    else field_of identity "key")
              /\ lookup_field "trafficTypeName" fields
                 = (if decide ("trafficTypeName" ∈ map fst data)
                    then lookup_field "trafficTypeName" data
                    else field_of identity "trafficType")
              /\ lookup_field "timestamp" fields
                 = (if truthy (lookup_field "timestamp" data)
                    then lookup_field "timestamp" data
                    else JNum (Int (Date_now G)))
              /\ lookup_field "eventTypeId" fields
                 = (if truthy (prefix opts)
                    then JStr (to_string (prefix opts) +:+ "."
                               +:+ to_string (lookup_field "eventTypeId" data))
                    else lookup_field "eventTypeId" data))
         ids events.
Proof.
  intros Hfilter Hmap Hnd Hvalid Hkt Hids Hall. unfold sendHitTask.
  rewrite Hfilter, Hmap.
  assert ((if is_default (mapper opts) then mret true
           else validateEventData I (JObj data)) = Normal true) as ->.
  { destruct (is_default (mapper opts)); [done |].
    by destruct Hvalid as [? | ?]. }
  cbv zeta.
  rewrite (stamped_lookup _ _ "key"), (stamped_lookup _ _ "trafficTypeName")
    by done.
  rewrite (prefixed_lookup _ _ "key"), (prefixed_lookup _ _ "trafficTypeName")
    by done.
  rewrite Hkt, Hids, (track_identities_truthy _ _ _ Hall).
  eexists. split; [reflexivity |].
  apply Forall2_fmap_r, Forall_Forall2_diag, Forall_forall.
  intros identity _. eexists. split; [reflexivity |].
  pose proof (stamped_NoDup (Date_now G) _ (prefixed_NoDup (prefix opts) _ Hnd))
    as Hnd2.
  rewrite !(lookup_assign _ _ _ Hnd2).
  repeat split.
  - rewrite (stamped_lookup _ _ "key"), (prefixed_lookup _ _ "key") by done.
    destruct (decide ("key" ∈ map fst data)) as [Hin|Hout].
    + rewrite decide_True; [done |].
      by rewrite stamped_keys, prefixed_keys.
    + rewrite decide_False; [done |].
      by rewrite stamped_keys, prefixed_keys.
  - rewrite (stamped_lookup _ _ "trafficTypeName"),
      (prefixed_lookup _ _ "trafficTypeName") by done.
    destruct (decide ("trafficTypeName" ∈ map fst data)) as [Hin|Hout].
    + rewrite decide_True; [done |].
      by rewrite stamped_keys, prefixed_keys.
    + rewrite decide_False; [done |].
      by rewrite stamped_keys, prefixed_keys.
  - match goal with
    | |- (if decide ?P then ?a else _) = _ =>
        assert ((if decide P then a else JUndefined) = a) as Hsame
    end.
    { case_decide as Hin; [done |]. symmetry. by apply lookup_field_absent. }
    etransitivity; [exact Hsame |]. clear Hsame.
    rewrite <- (prefixed_lookup (prefix opts) data "timestamp") by done.
    destruct (truthy (lookup_field "timestamp" (prefixed (prefix opts) data)));
      simpl; [done | by rewrite lookup_set_field_eq].
  - match goal with
    | |- (if decide ?P then ?a else _) = _ =>
        assert ((if decide P then a else JUndefined) = a) as Hsame
    end.
    { case_decide as Hin; [done |]. symmetry. by apply lookup_field_absent. }
    etransitivity; [exact Hsame |]. clear Hsame.
    rewrite (stamped_lookup _ _ "eventTypeId") by done.
    destruct (truthy (prefix opts)); [by rewrite lookup_set_field_eq | done].
Qed.

(** X14: what the handler tracks, once the original task has returned
    and the filter has accepted the hit, for a custom mapper whose
    event data is valid and does not have both a truthy key and a truthy
    traffic type: one event for each identity, in order, and no error.
    In each event the key is the data's own when the data has a key
    property, even a falsy one, and the identity's otherwise, and
    likewise for the traffic type; the timestamp is the data's own when
    truthy and the clock's otherwise; the type is prefixed when the
    prefix is truthy, prefix and type being printable. *)
Theorem sendHitTask_event_per_identity
    (G : globals) (opts : options) (m : model) (queue : list jsval)
    (f : model -> option (list (string * jsval)))
    (data : list (string * jsval)) (ids : list jsval) :
  filter opts m = true ->
  mapper opts = CustomMapper f ->
  f m = Some data ->
  NoDup (map fst data) ->
  "__proto__" ∉ map fst data ->
  validateEventData I (JObj data) = Normal true ->
  truthy (lookup_field "key" data)
    && truthy (lookup_field "trafficTypeName" data) = false ->
  (truthy (prefix opts) = true ->
   printable (prefix opts) = true
   /\ printable (lookup_field "eventTypeId" data) = true) ->
  identities opts = JArr ids ->
  Forall (fun identity => truthy identity = true) ids ->
  exists events,
    sendHitTask I G opts m queue = ((queue ++ events)%list, Normal tt)
    /\ Forall2
         (fun identity event =>
            exists fields,
              event = JObj fields
              /\ lookup_field "key" fields
                 = (if decide ("key" ∈ map fst data)
                    then lookup_field "key" data
                    else field_of identity "key")
              /\ lookup_field "trafficTypeName" fields
                 = (if decide ("trafficTypeName" ∈ map fst data)
                    then lookup_field "trafficTypeName" data
                    else field_of identity "trafficType")
              /\ lookup_field "timestamp" fields
                 = (if truthy (lookup_field "timestamp" data)
                    then lookup_field "timestamp" data
                    else JNum (Int (Date_now G)))
              /\ lookup_field "eventTypeId" fields
                 = (if truthy (prefix opts)
                    then JStr (to_string (prefix opts) +:+ "."
                               +:+ to_string (lookup_field "eventTypeId" data))
                    else lookup_field "eventTypeId" data))
         ids events.
Proof.
  intros Hfilter Hmapper Hmap Hnd _ Hvalid Hkt _ Hids Hall.
  apply sendHitTask_identities_branch; try done.
  - by rewrite Hmapper.
  - by right.
Qed.

Lemma validateIdentities_array (elems : list jsval) :
  snd (validateIdentities I (JArr elems))
  = (valid ← filter_array (valid_identity I) (unicAsStrings I elems).2;
     mret (JArr valid)).
Proof. unfold validateIdentities. by destruct (unicAsStrings I elems). Qed.

Lemma SplitTracker_installed (opts opts' : options) :
  SplitTracker I opts = Normal (Some opts') ->
  filter opts' = filter opts
  /\ mapper opts' = mapper opts
  /\ prefix opts'
     = (if isString I (prefix opts) then prefix opts else JUndefined)
  /\ exists elems valid,
       identities opts = JArr elems
       /\ identities opts' = JArr valid
       /\ valid <> []
       /\ sublist valid (unicAsStrings I elems).2
       /\ Forall (well_formed_identity I) valid.
Proof.
  unfold SplitTracker.
  destruct (identities opts) as [| | | | | |elems] eqn:Hids;
    try (simpl; discriminate).
  rewrite validateIdentities_array.
  destruct (filter_array_spec (valid_identity I) (unicAsStrings I elems).2
              (valid_identity_total I)) as (valid & -> & Hsub & Hall).
  simpl. destruct valid as [|x valid]; simpl; [discriminate |].
  intros [= <-]. simpl. repeat split.
  exists elems, (x :: valid). repeat split; try done.
  eapply Forall_impl; [exact Hall |]. apply valid_identity_true.
Qed.

(** X15: the part of the constructor that settles the options, up to
    the point where it reads the tracker's sendHitTask, does not throw.
    It goes on to install the handler exactly when [validateIdentities]
    returns a non-empty array: the handler's options then keep the
    filter and the mapper, have that array, namely the entries of the
    list [unicAsStrings] returned that are valid, in place of the given
    identities, and have the prefix only if [isString] accepts it,
    [undefined] otherwise.  With identities that are not an array, or
    none of which is valid, it returns before installing anything. *)
Theorem SplitTracker_installs_iff_valid_identity (opts : options) :
  exists r,
    SplitTracker I opts = Normal r
    /\ match r with
       | Some opts' =>
           filter opts' = filter opts
           /\ mapper opts' = mapper opts
           /\ prefix opts'
              = (if isString I (prefix opts) then prefix opts else JUndefined)
           /\ exists elems valid,
                identities opts = JArr elems
                /\ snd (validateIdentities I (identities opts))
                   = Normal (JArr valid)
                /\ identities opts' = JArr valid
                /\ valid <> []
                /\ sublist valid (unicAsStrings I elems).2
                /\ forall x, x ∈ valid
                     <-> x ∈ (unicAsStrings I elems).2
                         /\ well_formed_identity I x
       | None =>
           match identities opts with
           | JArr elems =>
               Forall (fun x => ~ well_formed_identity I x)
                 (unicAsStrings I elems).2
           | _ => True
           end
       end.
Proof.
  unfold SplitTracker.
  destruct (identities opts) as [| | | | | |elems] eqn:Hids;
    try (by exists None).
  rewrite validateIdentities_array.
  destruct (filter_array_exact (valid_identity I) (unicAsStrings I elems).2
              (valid_identity_total I)) as (valid & Hvalid & Hsub & Hiff).
  rewrite Hvalid. simpl. destruct valid as [|x valid]; simpl.
  - exists None. split; [done |].
    apply Forall_forall. intros x Hx Hwf.
    apply (elem_of_nil x), Hiff. split; [done |].
    by apply valid_identity_complete.
  - eexists. split; [reflexivity |]. simpl.
    split; [done |]. split; [done |]. split; [done |].
    exists elems, (x :: valid).
    split; [done |]. split; [done |]. split; [done |].
    split; [done |]. split; [done |].
    intros y. rewrite Hiff. split; intros [? ?]; split; try done.
    + by apply valid_identity_true.
    + by apply valid_identity_complete.
Qed.

(** X16: with the default mapper and a printable prefix, the handler the
    constructor installs, once the original task has returned and the
    filter has answered, does not throw on a hit whose type is a string
    that names no property of [Object.prototype], whatever the global
    state, and it validates nothing: a hit the filter accepts is tracked
    once for every valid identity, a hit it rejects is not tracked. *)
Theorem default_mapper_handler_never_throws (opts opts' : options) :
  SplitTracker I opts = Normal (Some opts') ->
  mapper opts = DefaultMapper ->
  printable (prefix opts) = true ->
  exists ids,
    identities opts' = JArr ids
    /\ ids <> []
    /\ forall (G : globals) (m : model) (queue : list jsval) (h : string),
         m (JStr "hitType") = JStr h ->
         h ∉ object_prototype_names ->
         exists events,
           sendHitTask I G opts' m queue = ((queue ++ events)%list, Normal tt)
           /\ length events = if filter opts m then length ids else 0%nat.
Proof.
  intros (Hf & Hm & _ & elems & ids & _ & Hids & Hne & _ & Hall)%SplitTracker_installed
    Hdefault _.
  exists ids. split; [done |]. split; [done |]. intros G m queue h _ _.
  unfold sendHitTask. rewrite Hf, Hm, Hdefault.
  destruct (filter opts m).
  - cbn [apply_mapper is_default]. cbv zeta.
    rewrite (stamped_lookup _ _ "key"), (stamped_lookup _ _ "trafficTypeName")
      by done.
    rewrite (prefixed_lookup _ _ "key"), (prefixed_lookup _ _ "trafficTypeName")
      by done.
    change (lookup_field "key" (defaultMapper m)) with JUndefined.
    cbn [truthy andb]. rewrite Hids.
    rewrite track_identities_truthy.
    + eexists. split; [reflexivity |]. by rewrite length_map.
    + eapply Forall_impl; [exact Hall |]. by intros x [? _].
  - exists []. by rewrite app_nil_r.
Qed.

(** [Object.assign({}, defaultOptions, sdkOptions, pluginOptions)]: the
    later source wins. *)
Lemma plugin_options_take_precedence
    (defaults : options) (sdkOptions pluginOptions : option given_options) :
  let opts := assign_options (assign_options defaults sdkOptions) pluginOptions in
  let pick {A} (field : given_options -> option A) (d : A) : A :=
    default (default d (sdkOptions ≫= field)) (pluginOptions ≫= field) in
  filter opts = pick given_filter (filter defaults)
  /\ mapper opts = pick given_mapper (mapper defaults)
  /\ prefix opts = pick given_prefix (prefix defaults)
  /\ identities opts = pick given_identities (identities defaults).
Proof. by destruct sdkOptions, pluginOptions. Qed.

(** X18: when the core settings lack a truthy key or a truthy traffic
    type and neither the SDK options nor the plugin options give
    identities, the default options have no identities and the
    constructor installs no handler. *)
Theorem no_identities_no_handler
    (coreSettings : jsval) (sdkOptions pluginOptions : option given_options) :
  coreSettings <> JUndefined -> coreSettings <> JNull ->
  truthy (field_of coreSettings "key") = false
    \/ truthy (field_of coreSettings "trafficType") = false ->
  sdkOptions ≫= given_identities = None ->
  pluginOptions ≫= given_identities = None ->
  exists defaults,
    defaultOptions coreSettings = Normal defaults
    /\ identities defaults = JUndefined
    /\ SplitTracker_of I defaults sdkOptions pluginOptions = Normal None.
Proof.
  intros Hu Hn Hfalsy Hsdk Hplugin. unfold defaultOptions.
  rewrite (get_not_nullish coreSettings "key") by done. simpl.
  assert (exists both,
            (if truthy (field_of coreSettings "key")
             then get coreSettings "trafficType"
             else mret (field_of coreSettings "key")) = Normal both
            /\ truthy both = false) as (both & -> & Hboth).
  { destruct (truthy (field_of coreSettings "key")) eqn:Hk.
    - rewrite (get_not_nullish coreSettings "trafficType") by done.
      eexists. split; [reflexivity |]. by destruct Hfalsy.
    - by eexists. }
  simpl. rewrite Hboth. eexists. split; [reflexivity |]. split; [done |].
  unfold SplitTracker_of, SplitTracker.
  assert (identities (assign_options (assign_options
            {| filter := defaultFilter; mapper := DefaultMapper;
               prefix := JStr defaultPrefix; identities := JUndefined |}
            sdkOptions) pluginOptions) = JUndefined) as ->; [| done].
  destruct sdkOptions as [s|], pluginOptions as [g|]; simpl in *;
    try rewrite Hplugin; try rewrite Hsdk; done.
Qed.

(** X19: when the core settings have a truthy key and a truthy traffic
    type that make a valid identity, and no options are given, the
    handler is installed with the default filter, mapper and prefix,
    provided [unicAsStrings] returns a one-element list as it is; its
    only identity is the core settings' key and traffic type. *)
Theorem core_settings_identity
    (coreSettings : jsval) (k t : jsval) :
  field_of coreSettings "key" = k ->
  field_of coreSettings "trafficType" = t ->
  truthy k = true -> truthy t = true ->
  isString I k = true \/ isFinite I k = true ->
  isString I t = true ->
  isString I (JStr defaultPrefix) = true ->
  (unicAsStrings I [JObj [("key", k); ("trafficType", t)]]).2
  = [JObj [("key", k); ("trafficType", t)]] ->
  exists defaults,
    defaultOptions coreSettings = Normal defaults
    /\ SplitTracker_of I defaults None None
       = Normal (Some {| filter := defaultFilter;
                         mapper := DefaultMapper;
                         prefix := JStr defaultPrefix;
                         identities :=
                           JArr [JObj [("key", k); ("trafficType", t)]] |}).
Proof.
  intros Hk Ht Hkt Htt Hkey Hs Hp Hunic.
  assert (coreSettings <> JUndefined /\ coreSettings <> JNull) as [Hu Hn].
  { split; intros ->; subst k; discriminate Hkt. }
  unfold defaultOptions.
  rewrite (get_not_nullish coreSettings "key") by done. simpl.
  rewrite Hk, Hkt.
  rewrite (get_not_nullish coreSettings "trafficType") by done. simpl.
  rewrite Ht, Htt. eexists. split; [reflexivity |].
  unfold SplitTracker_of, SplitTracker. cbn [assign_options identities].
  rewrite validateIdentities_array, Hunic. cbn [filter_array].
  rewrite (valid_identity_complete I).
  - simpl. by rewrite Hp.
  - split; [done |]. exists k, t. simpl.
    repeat split; try done.
Qed.

End GaToSplitHandler.

(** ** Runs of the properties above *)

Lemma validateEventData_accepted_witness :
  truthy (GaToSplit.field_of GaToSplit.purchase_event "timestamp") = false
  \/ GaToSplit.isFinite GaToSplit.lang
       (GaToSplit.field_of GaToSplit.purchase_event "timestamp") = true.
Proof.
  exact (proj1 (proj2 (proj2 (proj2
           (validateEventData_accepted GaToSplit.lang GaToSplit.purchase_event
              eq_refl))))).
Defined.

Lemma validateEventData_throws_only_witness :
  TypeError = TypeError
  /\ (JNull = JUndefined \/ JNull = JNull
      \/ GaToSplit.validateEventProperties GaToSplit.lang
           (GaToSplit.field_of JNull "properties")
           "splitio-ga-to-split:mapper" = JUndefined
      \/ GaToSplit.validateEventProperties GaToSplit.lang
           (GaToSplit.field_of JNull "properties")
           "splitio-ga-to-split:mapper" = JNull).
Proof.
  exact (validateEventData_throws_only GaToSplit.lang JNull TypeError eq_refl).
Defined.

(** A page view mapped to an event with an empty key: the one event
    tracked has the empty key of the data, not the key "u1" of the
    identity, and the identity's traffic type. *)
Lemma sendHitTask_event_per_identity_witness :
  exists fields,
    GaToSplit.sendHitTask GaToSplit.lang
      {| GaToSplit.global_event := None; GaToSplit.Date_now := 1600000000000 |}
      GaToSplit.empty_key_options GaToSplit.pageview []
    = ([JObj fields], Normal tt)
    /\ lookup_field "key" fields = JStr EmptyString
    /\ lookup_field "trafficTypeName" fields = JStr "user".
Proof.
  destruct (sendHitTask_event_per_identity GaToSplit.lang
              {| GaToSplit.global_event := None;
                 GaToSplit.Date_now := 1600000000000 |}
              GaToSplit.empty_key_options GaToSplit.pageview []
              GaToSplit.empty_key_mapper
              [("eventTypeId", JStr "pageview"); ("key", JStr EmptyString)]
              [JObj [("key", JStr "u1"); ("trafficType", JStr "user")]])
    as (events & Hrun & Hevents).
  - reflexivity.
  - reflexivity.
  - reflexivity.
  - by_decide.
  - by_decide.
  - reflexivity.
  - reflexivity.
  - intros H. discriminate H.
  - reflexivity.
  - apply Forall_cons_2; [reflexivity | apply Forall_nil_2].
  - apply Forall2_cons_inv_l in Hevents
      as (event & rest & (fields & -> & Hkey & Htt & _) & Hrest & ->).
    apply Forall2_nil_inv_l in Hrest as ->.
    exists fields. split; [exact Hrun |]. split; [exact Hkey | exact Htt].
Defined.

Lemma default_mapper_handler_witness :
  exists ids,
    GaToSplit.identities GaToSplit.installed_options = JArr ids
    /\ ids <> []
    /\ forall (G : GaToSplit.globals) (m : GaToSplit.model)
              (queue : list jsval) (h : string),
         m (JStr "hitType") = JStr h ->
         h ∉ GaToSplit.object_prototype_names ->
         exists events,
           GaToSplit.sendHitTask GaToSplit.lang G GaToSplit.installed_options
             m queue = ((queue ++ events)%list, Normal tt)
           /\ length events
              = if GaToSplit.filter GaToSplit.default_mapper_options m
                then length ids else 0%nat.
Proof.
  apply (default_mapper_handler_never_throws GaToSplit.lang
           GaToSplit.default_mapper_options GaToSplit.installed_options).
  - vm_compute. reflexivity.
  - reflexivity.
  - reflexivity.
Defined.


Lemma no_identities_no_handler_witness :
  exists defaults,
    GaToSplit.defaultOptions GaToSplit.core_without_traffic_type = Normal defaults
    /\ GaToSplit.identities defaults = JUndefined
    /\ GaToSplit.SplitTracker_of GaToSplit.lang defaults None None = Normal None.
Proof.
  apply (no_identities_no_handler GaToSplit.lang
           GaToSplit.core_without_traffic_type None None);
    try done.
  right. reflexivity.
Defined.

Lemma core_settings_identity_witness :
  exists defaults,
    GaToSplit.defaultOptions GaToSplit.core_with_traffic_type = Normal defaults
    /\ GaToSplit.SplitTracker_of GaToSplit.lang defaults None None
       = Normal (Some {| GaToSplit.filter := GaToSplit.defaultFilter;
                         GaToSplit.mapper := GaToSplit.DefaultMapper;
                         GaToSplit.prefix := JStr GaToSplit.defaultPrefix;
                         GaToSplit.identities :=
                           JArr [JObj [("key", JStr "u1");
                                       ("trafficType", JStr "user")]] |}).
Proof.
  apply (core_settings_identity GaToSplit.lang
           GaToSplit.core_with_traffic_type (JStr "u1") (JStr "user"));
    try reflexivity.
  by left.
Defined.

(** ** The split-changes data source with calls in flight *)

Section SplitChangesOverlap.

Import SplitChanges.

Variable RawSplit : Type.
Variable Mutator : Type.
Variable splitMutatorFactory : list RawSplit -> Mutator.

(** A call made with no other in flight and answered next is one call
    of [splitChangesDataSource] run to settlement. *)
Lemma issue_then_settle (st : module_state) (r : fetched RawSplit) :
  step splitMutatorFactory
    (step splitMutatorFactory {| cursor := st; in_flight := [] |} Issue)
    (Settle 0 r)
  = {| cursor := fst (splitChangesDataSource splitMutatorFactory st r);
       in_flight := [] |}.
Proof. reflexivity. Qed.

Lemma since_monotone_one_in_flight (s : flights) (es : list (event RawSplit)) :
  in_flight s = [] \/ in_flight s = [since (cursor s)] ->
  one_at_a_time splitMutatorFactory s es ->
  tills_ahead_of_requests splitMutatorFactory s es ->
  Sorted Z.le (since (cursor s) :: since_trace splitMutatorFactory s es).
Proof.
  revert s. induction es as [|e es IH]; intros s Hinv; cbn [since_trace].
  - intros _ _. repeat constructor.
  - intros [Hone Hrest1] [Hahead Hrest2].
    assert ((in_flight (step splitMutatorFactory s e) = []
             \/ in_flight (step splitMutatorFactory s e)
                = [since (cursor (step splitMutatorFactory s e))])
            /\ since (cursor s) <= since (cursor (step splitMutatorFactory s e)))
      as [Hinv' Hle].
    { destruct e as [|n r]; simpl in *.
      - rewrite Hone. split; [by right | reflexivity].
      - destruct Hinv as [Hnil|Hone'].
        + rewrite Hnil. simpl. split; [by left | reflexivity].
        + rewrite Hone' in *. destruct n as [|n]; simpl in *.
          * split; [by left |]. destruct r as [f|j]; simpl; [reflexivity | done].
          * split; [by right | reflexivity]. }
    constructor; [by apply IH |]. by constructor.
Qed.

(** C3 (amended): when no call is made while another is unanswered, and
    every parsed body carries a till that is at least the since its
    request was built with, the cursor never decreases, failed calls
    leaving it as it is.  The code itself compares nothing and stores
    the till as it comes. *)
Theorem since_monotone_without_overlap (st : module_state)
    (es : list (event RawSplit)) :
  one_at_a_time splitMutatorFactory {| cursor := st; in_flight := [] |} es ->
  tills_ahead_of_requests splitMutatorFactory
    {| cursor := st; in_flight := [] |} es ->
  Sorted Z.le
    (since st
       :: since_trace splitMutatorFactory {| cursor := st; in_flight := [] |} es).
Proof.
  intros Hone Hahead.
  apply (since_monotone_one_in_flight {| cursor := st; in_flight := [] |});
    [by left | done | done].
Qed.

End SplitChangesOverlap.

(** With two calls in flight the condition on the tills is not enough:
    both requests carry -1, the answers 20 and 10 are both ahead of it,
    and the second answer takes the cursor from 20 back to 10. *)
Lemma overlapping_calls_move_since_back :
  let es := [SplitChanges.Issue; SplitChanges.Issue;
             SplitChanges.Settle 0
               (SplitChanges.Body
                  {| SplitChanges.till := 20; SplitChanges.splits := ["a"] |});
             SplitChanges.Settle 0
               (SplitChanges.Body
                  {| SplitChanges.till := 10; SplitChanges.splits := ["a"] |})] in
  let s := {| SplitChanges.cursor := SplitChanges.initial;
              SplitChanges.in_flight := [] |} in
  SplitChanges.tills_ahead_of_requests (@id (list string)) s es
  /\ SplitChanges.since_trace (@id (list string)) s es = [-1; -1; 20; 10].
Proof. simpl. split; [lia | reflexivity]. Qed.

(** A run of C3 (amended): three calls, one after the other, answered
    with till 4, a body that does not parse, and till 9. *)
Lemma since_monotone_without_overlap_witness :
  Sorted Z.le
    (SplitChanges.since SplitChanges.initial
       :: SplitChanges.since_trace (@id (list string))
            {| SplitChanges.cursor := SplitChanges.initial;
               SplitChanges.in_flight := [] |}
            [SplitChanges.Issue;
             SplitChanges.Settle 0
               (SplitChanges.Body
                  {| SplitChanges.till := 4; SplitChanges.splits := ["a"] |});
             SplitChanges.Issue;
             SplitChanges.Settle 0 (SplitChanges.Failed SplitChanges.BodyNotJson);
             SplitChanges.Issue;
             SplitChanges.Settle 0
               (SplitChanges.Body
                  {| SplitChanges.till := 9; SplitChanges.splits := ["b"] |})]).
Proof.
  apply (since_monotone_without_overlap string (list string) id).
  - simpl. tauto.
  - simpl. lia.
Defined.
